(** * process_pdf.py: word extraction from PDF documents to a JSON sidecar

    A shallow embedding of [src/process_pdf.py] and the properties of its
    three entry points: [sanitize_filename], [pdf_to_word_json] and the
    command-line driver under [if __name__ == "__main__"].

    Conventions of the embedding:
    - a Python [str] is a list of characters ([list ascii], code points
      below U+0100), so that slicing, [rfind], [strip] and [join] are list
      operations;
    - a Python [float] is a member of the interface [PyFloat]: the script
      only subtracts, rounds to two decimals and serialises floats. The
      interface has two instances: [binary64], the floats of Python, and
      [Q_float], exact rationals, for samples that are easy to read;
    - the file system, the standard output, the log of calls into the PDF
      library and the set of live document handles form the [World] the
      script runs in; exceptions are results of a state-and-error monad. *)

From Stdlib Require Import ZArith QArith Qround Lqa Lia Ascii String DecimalString DecimalNat.
From Stdlib Require Floats.
From stdpp Require Import base option list gmap strings.

Local Open Scope Z_scope.

(* ===================================================================== *)
(** ** Python strings                                                     *)
(* ===================================================================== *)

Module Py.

(** [str]: a sequence of code points. *)
Abbreviation str := (list ascii).

(** String literals of the script. *)
Definition lit (s : string) : str := String.list_ascii_of_string s.
Global Arguments lit : simpl never.

Definition code (c : ascii) : N := N_of_ascii c.

Definition between (lo hi n : N) : bool := (lo <=? n)%N && (n <=? hi)%N.

(** [str.isprintable] on one character: every general category except
    "Other" (Cc, Cf) and "Separator" (Zs), the ASCII space excepted. *)
Definition isprintable (c : ascii) : bool :=
  let n := code c in
  between 32 126 n || between 161 172 n || between 174 255 n.

(** [str.isspace] on one character: bidirectional class WS, B or S, or
    general category Zs. *)
Definition isspace (c : ascii) : bool :=
  let n := code c in
  between 9 13 n || between 28 32 n || (n =? 133)%N || (n =? 160)%N.

(** [str.isalnum] on one character (letters, decimals, digits, numerics);
    with the underscore it is the class [\w] of [re]. *)
Definition isalnum (c : ascii) : bool :=
  let n := code c in
  between 48 57 n || between 65 90 n || between 97 122 n
  || (n =? 170)%N || between 178 179 n || (n =? 181)%N
  || between 185 186 n || between 188 190 n
  || between 192 214 n || between 216 246 n || between 248 255 n.

(** [str.lower] on one character. *)
Definition lower_char (c : ascii) : ascii :=
  let n := code c in
  if between 65 90 n || between 192 214 n || between 216 222 n
  then ascii_of_N (n + 32) else c.

Definition lower (s : str) : str := map lower_char s.

(** [len(s)] as a Python integer. *)
Definition len (s : str) : Z := Z.of_nat (length s).

(** Slice bounds: a negative index counts from the end, and both ends are
    clipped to the string. *)
Definition clip (i : Z) (s : str) : nat :=
  Z.to_nat (if i <? 0 then Z.max 0 (len s + i) else Z.min i (len s)).

(** [s[i:]], [s[:j]] and [s[i:j]]. *)
Definition slice_from (i : Z) (s : str) : str := drop (clip i s) s.
Definition slice_to (j : Z) (s : str) : str := take (clip j s) s.
Definition slice (i j : Z) (s : str) : str :=
  take (clip j s - clip i s) (drop (clip i s) s).

(** [s.rfind(c)] for a one-character needle: the highest index of [c], or
    [-1]. *)
Fixpoint rfind_from (c : ascii) (s : str) (i last : Z) : Z :=
  match s with
  | [] => last
  | x :: s' => rfind_from c s' (i + 1) (if Ascii.eqb x c then i else last)
  end.

Definition rfind (c : ascii) (s : str) : Z := rfind_from c s 0 (-1).

(** [s.lstrip()], [s.rstrip()], [s.strip()] with a character predicate;
    [strip] with no argument strips white space. *)
Fixpoint lstrip_with (p : ascii → bool) (s : str) : str :=
  match s with
  | [] => []
  | c :: s' => if p c then lstrip_with p s' else s
  end.

Definition rstrip_with (p : ascii → bool) (s : str) : str :=
  reverse (lstrip_with p (reverse s)).

Definition strip (s : str) : str := rstrip_with isspace (lstrip_with isspace s).

(** [s.rstrip(c)] for a one-character argument. *)
Definition rstrip_char (c : ascii) (s : str) : str := rstrip_with (Ascii.eqb c) s.

(** [s.startswith(t)] and [s.endswith(t)]. *)
Definition startswith (s t : str) : bool := bool_decide (t `prefix_of` s).
Definition endswith (s t : str) : bool := bool_decide (t `suffix_of` s).

(** Truth value of a string: [not s] is [negb (truthy s)]. *)
Definition truthy (s : str) : bool :=
  match s with [] => false | _ => true end.

(** [str(n)] of a non-negative integer, and [int(s)] of a digit string. *)
Definition str_of_nat (n : nat) : str :=
  String.list_ascii_of_string (NilEmpty.string_of_uint (Nat.to_uint n)).

Definition int_of_str (s : str) : option nat :=
  Nat.of_uint <$> NilEmpty.uint_of_string (String.string_of_list_ascii s).

(** [sep.join(parts)]. *)
Fixpoint join (sep : str) (parts : list str) : str :=
  match parts with
  | [] => []
  | [p] => p
  | p :: rest => p ++ sep ++ join sep rest
  end.

(** [re.sub(cls, repl, s)] for a pattern that is one character class and a
    replacement that is one character: every matching character is
    replaced, the others are kept. *)
Definition re_sub_class (cls : ascii → bool) (repl : ascii) (s : str) : str :=
  map (λ c, if cls c then repl else c) s.

End Py.

Import Py.

(* ===================================================================== *)
(** ** os.path (POSIX flavour)                                            *)
(* ===================================================================== *)

Module posixpath.

Definition sep : ascii := "/"%char.
Definition extsep : ascii := "."%char.

(** [os.path.basename]: what follows the last separator. *)
Definition basename (p : str) : str :=
  let i := rfind sep p + 1 in
  slice_from i p.

(** [os.path.dirname]: what precedes the last separator, without its
    trailing separators unless it consists of separators only. *)
Definition dirname (p : str) : str :=
  let i := rfind sep p + 1 in
  let head := slice_to i p in
  if truthy head && negb (bool_decide (head = replicate (length head) sep))
  then rstrip_char sep head
  else head.

(** [os.path.splitext]: the extension starts at the last dot of the last
    component, unless only dots precede it there. *)
Definition splitext (p : str) : str * str :=
  let sepIndex := rfind sep p in
  let dotIndex := rfind extsep p in
  if (sepIndex <? dotIndex)
     && existsb (λ c, negb (Ascii.eqb c extsep)) (slice (sepIndex + 1) dotIndex p)
  then (slice_to dotIndex p, slice_from dotIndex p)
  else (p, slice_to 0 p).

(** [os.path.join] of two components. *)
Definition join (a b : str) : str :=
  if startswith b [sep] then b
  else if negb (truthy a) || endswith a [sep] then a ++ b
  else a ++ [sep] ++ b.

End posixpath.

(* ===================================================================== *)
(** ** sanitize_filename                                                  *)
(* ===================================================================== *)

(** The character class [[^\w-]]. *)
Definition not_word_or_hyphen (c : ascii) : bool :=
  negb (isalnum c || Ascii.eqb c "_" || Ascii.eqb c "-").

Definition sanitize_filename (filename : str) : str :=
  let basename := posixpath.basename filename in
  let '(name_without_ext, _) := posixpath.splitext basename in
  let sanitized := re_sub_class not_word_or_hyphen "_" name_without_ext in
  sanitized.

(* ===================================================================== *)
(** ** Python floats                                                      *)
(* ===================================================================== *)

(** The three things the script does with a float: subtraction,
    [round(x, 2)] and (in what it promises about its output) comparison. *)
Class PyFloat := {
  float : Type;
  fsub : float → float → float;
  round2 : float → float;
  fle : float → float → Prop;
}.

(** Exact rational arithmetic as an instance. [round] rounds half to
    even. *)
Definition round_half_even (q : Q) : Z :=
  let f := Qfloor q in
  match (q - inject_Z f ?= 1 # 2)%Q with
  | Lt => f
  | Gt => f + 1
  | Eq => if Z.even f then f else f + 1
  end.

Definition Q_round2 (q : Q) : Q :=
  inject_Z (round_half_even (q * 100)) / 100.

Definition Q_sub (a b : Q) : Q := Qred (a - b).

Definition Q_float : PyFloat :=
  {| float := Q; fsub := Q_sub; round2 := Q_round2; fle := Qle |}.

(** Binary floating point. A Python [float] is an IEEE 754 binary64
    number: the primitive floats, whose operations are specified over
    [spec_float] with 53 bits of precision. Subtraction and [<=] are those
    of the format. [round(x, 2)] is not one of its operations: CPython
    rounds the exact value of [x] to the nearest decimal with two places,
    ties to even, and converts that decimal to the nearest float, ties to
    even; zeros, infinities and nan round to themselves. *)

(** [a / c] rounded to an integer, half to even ([0 ≤ a], [0 < c]). *)
Definition half_even_div (a c : Z) : Z :=
  let q := a / c in
  match 2 * (a mod c) ?= c with
  | Lt => q
  | Gt => q + 1
  | Eq => if Z.even q then q else q + 1
  end.

Section Binary64.

Import SpecFloat FloatOps.

(** [|x| * 100] rounded to an integer, half to even, for
    [|x| = m * 2 ^ e]. *)
Definition hundredths (m : positive) (e : Z) : Z :=
  if 0 <=? e then 100 * Z.pos m * 2 ^ e
  else half_even_div (100 * Z.pos m) (2 ^ (- e)).

(** [round(x, 2)] of a finite [x] that is not zero: the decimal with two
    places nearest to [x], ties to even, and then the float nearest to
    that decimal, ties to even. The decimal is [r] hundredths; its float
    is the quotient of [r] by [100], located and rounded as the division
    of the format does. A decimal that is zero keeps the sign. *)
Definition SF_round2 (s : bool) (m : positive) (e : Z) : spec_float :=
  let r := hundredths m e in
  if r =? 0 then S754_zero s
  else
    let '(q, e', l) := SFdiv_core_binary prec emax r 0 100 0 in
    binary_round_aux prec emax s q e' l.

(** [round(x, 2)]: zeros, infinities and nan round to themselves. *)
Definition SF_round (x : spec_float) : spec_float :=
  match x with
  | S754_finite s m e => SF_round2 s m e
  | _ => x
  end.

(** [round(x, 2)] on binary64. *)
Definition b64_round2 (x : PrimFloat.float) : PrimFloat.float :=
  match Prim2SF x with
  | S754_finite s m e => SF2Prim (SF_round2 s m e)
  | _ => x
  end.

End Binary64.

Definition binary64 : PyFloat :=
  {| float := PrimFloat.float;
     fsub := PrimFloat.sub;
     round2 := b64_round2;
     fle := λ a b, PrimFloat.leb a b = true |}.

(* ===================================================================== *)
(** ** Data model                                                         *)
(* ===================================================================== *)

Section Extraction.

Context {F : PyFloat}.

(** One tuple of [page.get_text("words")]:
    [(x0, y0, x1, y1, "word", block_no, line_no, word_no)], top-left
    origin. *)
Record RawWord := {
  raw_x0 : float; raw_y0 : float; raw_x1 : float; raw_y1 : float;
  raw_text : str;
  block_no : nat; line_no : nat; word_no : nat;
}.

(** A word and a page of the output mapping. *)
Record WordRec := { text : str; bbox : list float }.

Record PageRec := {
  page : nat; width : float; height : float; words : list WordRec;
}.

(** What the library finds at a page index: a page with its rectangle and
    words, or damage that makes loading it raise. *)
Inductive PageSrc :=
| Page (rect_height rect_width : float) (get_text_words : list RawWord)
| BrokenPage (err : str).

(** What a file holds: a PDF the library can open, a complete dump of an
    output mapping, a dump cut short, or anything else. *)
Inductive Content :=
| PdfDoc (pages : list PageSrc)
| JsonDoc (json_data : gmap str PageRec)
| Truncated
| Blob (bytes : str).

Inductive Entry :=
| File (c : Content)
| Dir (names : list str).

(** What opening a path for writing and dumping to it meets there: nothing
    special, a refusal to open (the file is left as it was), or an error in
    the middle of the dump (the file exists and is incomplete). *)
Inductive WriteFault :=
| NoFault
| DenyOpen (err : str)
| FailDump (err : str).

(** Exceptions: [OSError] and its subclasses, and every other
    [Exception]. *)
Inductive Exn :=
| OSError (msg : str)
| RuntimeError (msg : str).

(** [str(e)]. *)
Definition exn_msg (e : Exn) : str :=
  match e with OSError m | RuntimeError m => m end.

(** The world the script runs in. [disk] and [refusal] are fixed during
    a run; [fs] is the file system by path, [stdout] the lines printed so
    far, [fitz_calls] the paths [fitz.open] was called on, and [live_docs]
    the documents opened and not closed. [refusal] is what [os.remove]
    meets at the path of a file: nothing, or the error of a removal that
    the system refuses (a directory that cannot be written, an immutable
    file). *)
Record World := {
  fs : gmap str Entry;
  disk : str → WriteFault;
  refusal : str → option str;
  stdout : list str;
  fitz_calls : list str;
  live_docs : list str;
}.

Definition set_fs (f : gmap str Entry → gmap str Entry) (w : World) : World :=
  {| fs := f (fs w); disk := disk w; refusal := refusal w;
     stdout := stdout w;
     fitz_calls := fitz_calls w; live_docs := live_docs w |}.
Definition set_stdout (f : list str → list str) (w : World) : World :=
  {| fs := fs w; disk := disk w; refusal := refusal w;
     stdout := f (stdout w);
     fitz_calls := fitz_calls w; live_docs := live_docs w |}.
Definition set_fitz_calls (f : list str → list str) (w : World) : World :=
  {| fs := fs w; disk := disk w; refusal := refusal w;
     stdout := stdout w;
     fitz_calls := f (fitz_calls w); live_docs := live_docs w |}.
Definition set_live_docs (f : list str → list str) (w : World) : World :=
  {| fs := fs w; disk := disk w; refusal := refusal w;
     stdout := stdout w;
     fitz_calls := fitz_calls w; live_docs := f (live_docs w) |}.

(* ===================================================================== *)
(** ** Effects: state and exceptions                                      *)
(* ===================================================================== *)

Inductive Res (A : Type) :=
| Ret (a : A)
| Raise (e : Exn).
Global Arguments Ret {A} a.
Global Arguments Raise {A} e.

Definition M (A : Type) : Type := World → Res A * World.

Definition ret {A} (a : A) : M A := λ w, (Ret a, w).
Definition raise {A} (e : Exn) : M A := λ w, (Raise e, w).
Definition bind {A B} (m : M A) (k : A → M B) : M B := λ w,
  match m w with
  | (Ret a, w') => k a w'
  | (Raise e, w') => (Raise e, w')
  end.

(** [try: m  except Exception as e: h e]. *)
Definition try_except {A} (m : M A) (h : Exn → M A) : M A := λ w,
  match m w with
  | (Ret a, w') => (Ret a, w')
  | (Raise e, w') => h e w'
  end.

(** [try: m  except OSError: h]: any other exception passes through. *)
Definition try_except_OSError {A} (m : M A) (h : M A) : M A := λ w,
  match m w with
  | (Raise (OSError _), w') => h w'
  | r => r
  end.

End Extraction.

Notation "'let!' x ':=' m 'in' k" := (bind m (λ x, k))
  (at level 10, x name, m at level 100, k at level 200).
Notation "m '>>' k" := (bind m (λ _, k))
  (at level 100, k at level 200, right associativity).

Section Script.

Context {F : PyFloat}.

(** [for x in xs: s = body(x, s)]. *)
Fixpoint for_each {A S : Type} (xs : list A) (body : A → S → M S) (s : S) : M S :=
  match xs with
  | [] => ret s
  | x :: xs' => let! s' := body x s in for_each xs' body s'
  end.

(* ===================================================================== *)
(** ** The library and the operating system                               *)
(* ===================================================================== *)

Definition print (line : str) : M unit := λ w,
  (Ret (), set_stdout (λ out, out ++ [line]) w).

(** An open document. *)
Record Doc := { doc_name : str; doc_pages : list PageSrc }.

(** A loaded page: [page.rect.height], [page.rect.width] and
    [page.get_text("words")]. *)
Record PageObj := {
  rect_height : float; rect_width : float; get_text_words : list RawWord;
}.

(** [fitz.open(path)]: succeeds on a file that holds a PDF, and then the
    document is live until it is closed. Called on the empty string it
    reads no file: it makes a new document without pages. No file system
    has an entry under the empty path; a map that has one is read as
    under any other path. *)
Definition fitz_open (path : str) : M Doc := λ w,
  let w := set_fitz_calls (λ calls, calls ++ [path]) w in
  match fs w !! path with
  | Some (File (PdfDoc pages)) =>
      (Ret {| doc_name := path; doc_pages := pages |},
       set_live_docs (λ live, path :: live) w)
  | Some (File _) => (Raise (RuntimeError (lit "cannot open file: " ++ path)), w)
  | Some (Dir _) => (Raise (RuntimeError (lit "is no file: " ++ path)), w)
  | None =>
      match path with
      | [] =>
          (Ret {| doc_name := path; doc_pages := [] |},
           set_live_docs (λ live, path :: live) w)
      | _ :: _ => (Raise (RuntimeError (lit "no such file: " ++ path)), w)
      end
  end.

(** [len(doc)]. *)
Definition doc_len (doc : Doc) : nat := length (doc_pages doc).

(** [doc.load_page(page_num)] and the reads of the page that follow it. *)
Definition load_page (doc : Doc) (page_num : nat) : M PageObj :=
  match doc_pages doc !! page_num with
  | Some (Page h wd ws) =>
      ret {| rect_height := h; rect_width := wd; get_text_words := ws |}
  | Some (BrokenPage err) => raise (RuntimeError err)
  | None => raise (RuntimeError (lit "page not in document"))
  end.

(** Removes the first occurrence of a handle. *)
Fixpoint remove_first (x : str) (l : list str) : list str :=
  match l with
  | [] => []
  | y :: l' => if decide (x = y) then l' else y :: remove_first x l'
  end.

(** [doc.close()]. *)
Definition doc_close (doc : Doc) : M unit := λ w,
  (Ret (), set_live_docs (remove_first (doc_name doc)) w).

(** [with open(path, 'w', encoding='utf-8') as f: json.dump(json_data, f)]. *)
Definition dump_json (path : str) (json_data : gmap str PageRec) : M unit := λ w,
  match fs w !! path with
  | Some (Dir _) => (Raise (OSError (lit "Is a directory: " ++ path)), w)
  | _ =>
      match disk w path with
      | DenyOpen err => (Raise (OSError err), w)
      | FailDump err => (Raise (OSError err), set_fs (insert path (File Truncated)) w)
      | NoFault => (Ret (), set_fs (insert path (File (JsonDoc json_data))) w)
      end
  end.

(** [os.path.exists], [os.path.isfile], [os.path.isdir], [os.listdir]. *)
Definition path_exists (path : str) : M bool := λ w,
  (Ret (bool_decide (is_Some (fs w !! path))), w).

Definition isfile (path : str) : M bool := λ w,
  (Ret (match fs w !! path with Some (File _) => true | _ => false end), w).

Definition isdir (path : str) : M bool := λ w,
  (Ret (match fs w !! path with Some (Dir _) => true | _ => false end), w).

Definition listdir (path : str) : M (list str) := λ w,
  match fs w !! path with
  | Some (Dir names) => (Ret names, w)
  | Some (File _) => (Raise (OSError (lit "Not a directory: " ++ path)), w)
  | None => (Raise (OSError (lit "No such file or directory: " ++ path)), w)
  end.

(** [os.remove(path)]: removes a file unless the system refuses to, and
    raises [OSError] when it refuses and on anything that is no file. *)
Definition os_remove (path : str) : M unit := λ w,
  match fs w !! path with
  | Some (File _) =>
      match refusal w path with
      | Some err => (Raise (OSError err), w)
      | None => (Ret (), set_fs (delete path) w)
      end
  | Some (Dir _) => (Raise (OSError (lit "Is a directory: " ++ path)), w)
  | None => (Raise (OSError (lit "No such file or directory: " ++ path)), w)
  end.

(* ===================================================================== *)
(** ** pdf_to_word_json                                                   *)
(* ===================================================================== *)

(** Line 55: the printable characters of the text, stripped. *)
Definition clean_word (word_text : str) : str :=
  strip (List.filter isprintable word_text).

(** Lines 52-70: the body of the loop over the words of a page, as a
    function of the list built so far. *)
Definition word_body (page_height : float) (w : RawWord)
    (word_list_for_json : list WordRec) : list WordRec :=
  let '(x0, y0, x1, y1, word_text) :=
    (raw_x0 w, raw_y0 w, raw_x1 w, raw_y1 w, raw_text w) in
  let cleaned_word := clean_word word_text in
  if negb (truthy cleaned_word) then word_list_for_json
  else
    let pdf_x0 := x0 in
    let pdf_y0 := fsub page_height y1 in
    let pdf_x1 := x1 in
    let pdf_y1 := fsub page_height y0 in
    word_list_for_json ++
      [ {| text := cleaned_word;
           bbox := [round2 pdf_x0; round2 pdf_y0; round2 pdf_x1; round2 pdf_y1] |} ].

(** Lines 50-70: the loop over the words of a page. *)
Definition words_loop (page_height : float) (words_on_page : list RawWord)
    : list WordRec :=
  fold_left (λ acc w, word_body page_height w acc) words_on_page [].

(** A raw word is kept when its cleaned text is not empty. *)
Definition kept (w : RawWord) : bool := truthy (clean_word (raw_text w)).

(** A box with a left edge not right of its right edge and a lower edge
    not above its upper edge. *)
Definition bbox_ordered (r : WordRec) : Prop :=
  match bbox r with
  | [a; b; c; d] => fle a c ∧ fle b d
  | _ => False
  end.

(** Lines 42-79: the body of the loop over the pages. *)
Definition page_body (doc : Doc) (page_num : nat)
    (json_data : gmap str PageRec) : M (gmap str PageRec) :=
  let! page := load_page doc page_num in
  let page_height := rect_height page in
  let page_width := rect_width page in
  let words_on_page := get_text_words page in
  let word_list_for_json := words_loop page_height words_on_page in
  let json_data :=
    <[ str_of_nat (page_num + 1) :=
         {| page := page_num + 1;
            width := round2 page_width;
            height := round2 page_height;
            words := word_list_for_json |} ]> json_data in
  print (lit "  - Page " ++ str_of_nat (page_num + 1) ++ lit ": Found "
         ++ str_of_nat (length word_list_for_json) ++ lit " words.") >>
  ret json_data.

(** Lines 32-35: the path of the output, next to the input. *)
Definition output_path (pdf_path : str) : str :=
  let pdf_dir := posixpath.dirname pdf_path in
  let pdf_basename := posixpath.basename pdf_path in
  let json_basename := fst (posixpath.splitext pdf_basename) ++ lit ".json" in
  posixpath.join pdf_dir json_basename.

(** Lines 37-88: the [try] block, after the output path is bound. *)
Definition extract (pdf_path output_filename : str) : M (option str) :=
  print (lit "Processing '" ++ pdf_path ++ lit "' -> '" ++ output_filename
         ++ lit "'...") >>
  let! doc := fitz_open pdf_path in
  let! json_data := for_each (seq 0 (doc_len doc)) (page_body doc) ∅ in
  doc_close doc >>
  dump_json output_filename json_data >>
  print (lit "Successfully created JSON: " ++ output_filename) >>
  ret (Some output_filename).

(** Lines 90-96: the [except] block. *)
Definition cleanup (pdf_path output_filename : str) (e : Exn) : M (option str) :=
  print (lit "Error processing " ++ pdf_path ++ lit ": " ++ exn_msg e) >>
  let! there :=
    (if truthy output_filename then path_exists output_filename else ret false) in
  (if there
   then try_except_OSError (os_remove output_filename) (ret ())
   else ret ()) >>
  ret None.

(** The whole routine. Computing [output_filename] has no effect and
    cannot raise on a [str], so it is bound before the [try]. *)
Definition pdf_to_word_json (pdf_path : str) : M (option str) :=
  let output_filename := output_path pdf_path in
  try_except (extract pdf_path output_filename)
             (cleanup pdf_path output_filename).

(* ===================================================================== *)
(** ** The command line                                                   *)
(* ===================================================================== *)

Definition newline : ascii := "010"%char.

Definition is_pdf_name (f : str) : bool := endswith (lower f) (lit ".pdf").

(** Lines 99-114: no argument was given. *)
Definition no_arguments : M Z :=
  print (lit "Usage: python process_pdf.py <path_to_pdf_file1> [path_to_pdf_file2] ...") >>
  let default_dir := posixpath.join (lit "chapters") (lit "ancient-history") in
  print ([newline] ++ lit "No PDF path provided. Searching in default directory: '"
         ++ default_dir ++ lit "'") >>
  let! found := isdir default_dir in
  (if found then
     let! names := listdir default_dir in
     let pdf_files_found :=
       map (posixpath.join default_dir) (List.filter is_pdf_name names) in
     match pdf_files_found with
     | _ :: _ =>
         print (lit "Found PDF files: "
                ++ Py.join (lit ", ") (map posixpath.basename pdf_files_found)) >>
         for_each pdf_files_found (λ pdf_file _, pdf_to_word_json pdf_file >> ret ()) ()
     | [] => print (lit "No PDF files found in '" ++ default_dir ++ lit "'.")
     end
   else print (lit "Default directory '" ++ default_dir ++ lit "' not found.")) >>
  (* sys.exit(1) *)
  ret 1.

(** The test of line 118, on the file system of a given world. *)
Definition valid_arg (w : World) (pdf_path_arg : str) : bool :=
  match fs w !! pdf_path_arg with Some (File _) => true | _ => false end
  && is_pdf_name pdf_path_arg.

(** Lines 117-121: the body of the loop over the arguments. *)
Definition argument_body (pdf_path_arg : str) : M unit :=
  let! is_file := isfile pdf_path_arg in
  if is_file && is_pdf_name pdf_path_arg
  then pdf_to_word_json pdf_path_arg >> ret ()
  else print (lit "Skipping invalid path or non-PDF file: " ++ pdf_path_arg).

(** The script: returns the status the process exits with. *)
Definition main (argv : list str) : M Z :=
  if (length argv <? 2)%nat then no_arguments
  else
    for_each (drop 1 argv) (λ a _, argument_body a) () >>
    ret 0.

(** The process: an exception nobody caught ends it with status 1. *)
Definition run (argv : list str) (w : World) : Z * World :=
  match main argv w with
  | (Ret status, w') => (status, w')
  | (Raise _, w') => (1, w')
  end.

(* ===================================================================== *)
(** ** Vocabulary of the statements                                       *)
(* ===================================================================== *)

(** The record of a page in the output mapping. *)
Definition page_record (page_num : nat) (h wd : float) (ws : list RawWord) : PageRec :=
  {| page := page_num + 1; width := round2 wd; height := round2 h;
     words := words_loop h ws |}.

(** The mapping that a run over [pages] builds: a record under the
    1-based number of every page, and nothing else. *)
Definition json_of (pages : list PageSrc) (jd : gmap str PageRec) : Prop :=
  (∀ i h wd ws, pages !! i = Some (Page h wd ws) →
                jd !! str_of_nat (i + 1) = Some (page_record i h wd ws))
  ∧ (∀ key, (∀ i, (i < length pages)%nat → key ≠ str_of_nat (i + 1)) →
            jd !! key = None).

(** A step that only prints. *)
Definition same_but_stdout (w w' : World) : Prop :=
  fs w' = fs w ∧ disk w' = disk w ∧ refusal w' = refusal w
  ∧ fitz_calls w' = fitz_calls w
  ∧ live_docs w' = live_docs w ∧ ∃ lines, stdout w' = stdout w ++ lines.

(** What [fitz.open] finds at a path: the pages of the document it
    opens, if it opens one. *)
Definition pages_of (w : World) (pdf_path : str) : option (list PageSrc) :=
  match fs w !! pdf_path with
  | Some (File (PdfDoc pages)) => Some pages
  | Some _ => None
  | None => match pdf_path with [] => Some [] | _ :: _ => None end
  end.

(** A page that loads. *)
Definition is_page (src : PageSrc) : bool :=
  match src with Page _ _ _ => true | BrokenPage _ => false end.

(** Whether the dump to a path goes through. *)
Definition writable (w : World) (path : str) : bool :=
  match fs w !! path, disk w path with
  | Some (Dir _), _ => false
  | _, NoFault => true
  | _, _ => false
  end.

(** The file system after a dump that does not go through: a dump that
    fails midway leaves a truncated file, a refused one leaves nothing. *)
Definition failed_dump (w : World) (path : str) : gmap str Entry :=
  match fs w !! path, disk w path with
  | Some (Dir _), _ => fs w
  | _, FailDump _ => <[path := File Truncated]> (fs w)
  | _, _ => fs w
  end.

(** The file system after the [except] block: a file at the path is
    gone unless its removal is refused, anything else is as it was. *)
Definition remove_file (refused : option str) (path : str)
    (m : gmap str Entry) : gmap str Entry :=
  match m !! path, refused with
  | Some (File _), None => delete path m
  | _, _ => m
  end.

(** The line the [except] block prints. *)
Definition diagnostic (pdf_path : str) (e : Exn) : str :=
  lit "Error processing " ++ pdf_path ++ lit ": " ++ exn_msg e.

(** The line printed for an argument that is passed over. *)
Definition skip_line (a : str) : str :=
  lit "Skipping invalid path or non-PDF file: " ++ a.

End Script.

(** Membership in the class the pattern of [sanitize_filename] keeps. *)
Definition word_or_hyphen (c : ascii) : Prop :=
  isalnum c = true ∨ c = "_"%char ∨ c = "-"%char.

(* ===================================================================== *)
(** ** Vocabulary of the further statements                               *)
(* ===================================================================== *)

(** A string of separators. *)
Definition all_sep (s : str) : Prop := Forall (λ c, c = posixpath.sep) s.

(** What [os.path.dirname] returns: nothing, separators only, or something
    that does not end with a separator. *)
Definition dir_shape (d : str) : Prop :=
  d = [] ∨ (d ≠ [] ∧ all_sep d) ∨ ∃ r x, d = r ++ [x] ∧ x ≠ posixpath.sep.

(** The lines of a run of [pdf_to_word_json]. *)
Definition processing_line (pdf_path out : str) : str :=
  lit "Processing '" ++ pdf_path ++ lit "' -> '" ++ out ++ lit "'...".

Definition page_line (page_num n_words : nat) : str :=
  lit "  - Page " ++ str_of_nat page_num ++ lit ": Found "
  ++ str_of_nat n_words ++ lit " words.".

Definition success_line (out : str) : str :=
  lit "Successfully created JSON: " ++ out.

(** The directory searched when no argument is given, and the two lines
    every run without arguments starts with. *)
Definition default_dir : str := lit "chapters/ancient-history".

Definition usage_line : str :=
  lit "Usage: python process_pdf.py <path_to_pdf_file1> [path_to_pdf_file2] ...".

Definition searching_line : str :=
  [newline] ++ lit "No PDF path provided. Searching in default directory: '"
  ++ default_dir ++ lit "'".

(** The files a run without arguments goes through, given the listing of
    the default directory. *)
Definition found_in (names : list str) : list str :=
  map (posixpath.join default_dir) (List.filter is_pdf_name names).

Section ScriptMore.

Context {F : PyFloat}.

(** The world after the two opening lines. *)
Definition announced (w : World) : World :=
  set_stdout (λ o, o ++ [searching_line])
    (set_stdout (λ o, o ++ [usage_line]) w).

(** Lines 108-109: the loop over the files found. *)
Definition extract_all (files : list str) : M unit :=
  for_each files (λ pdf_file _, pdf_to_word_json pdf_file >> ret ()) ().

End ScriptMore.

(* ===================================================================== *)
(** ** Vocabulary of the statements on binary64                           *)
(* ===================================================================== *)

Section Binary64Vocabulary.

Import SpecFloat FloatOps.

(** A record locates the quotient [a / c]: its mantissa is the integer
    part, its round bit tells whether the rest reaches one half, its sticky
    bit whether anything is left beyond that. *)
Definition locates (a c : Z) (mrs : shr_record) : Prop :=
  shr_m mrs = a / c
  ∧ shr_r mrs = (c <=? 2 * (a mod c))
  ∧ shr_s mrs = negb ((2 * (a mod c)) mod c =? 0).

(** The float with sign [s], mantissa [M] and exponent [k], after the
    carry of a mantissa that rounding took to [2 ^ 53], and the infinity
    when the exponent is out of range. *)
Definition pack (s : bool) (M k : Z) : spec_float :=
  if M =? 2 ^ 53 then
    if k + 1 <=? 971 then S754_finite s (Z.to_pos (2 ^ 52)) (k + 1)
    else S754_infinity s
  else if k <=? 971 then S754_finite s (Z.to_pos M) k else S754_infinity s.

(** The value of a float in units of [2 ^ -1074], the infinities at
    [2 ^ 2098] and its opposite. *)
Definition units (x : spec_float) : Z :=
  match x with
  | S754_zero _ => 0
  | S754_nan => 0
  | S754_infinity s => cond_Zopp s (2 ^ 2098)
  | S754_finite s m e => cond_Zopp s (Z.pos m * 2 ^ (e + 1074))
  end.

(** [a / c], a value in units of [2 ^ -1074] that is not negative,
    rounded to 53 significant bits, half to even. *)
Definition rnd (a c : Z) : Z :=
  let n := Z.max (Z.log2 (a / c) + 1 - 53) 0 in
  half_even_div a (c * 2 ^ n) * 2 ^ n.

(** The same for a value [v / c] of either sign, with overflow to the
    infinities. *)
Definition srnd (v c : Z) : Z :=
  Z.sgn v * Z.min (rnd (Z.abs v) c) (2 ^ 2098).

(** The value of [round(x, 2)] in units of [2 ^ -1074], from that of
    [x]. *)
Definition R2 (v : Z) : Z :=
  Z.sgn v
  * Z.min (rnd (half_even_div (100 * Z.abs v) (2 ^ 1074) * 2 ^ 1074) 100)
          (2 ^ 2098).

(** Zeros and finite numbers. *)
Definition is_finite_SF (x : spec_float) : bool :=
  match x with
  | S754_zero _ | S754_finite _ _ _ => true
  | _ => false
  end.

End Binary64Vocabulary.

(* ===================================================================== *)
(** ** Sample worlds                                                      *)
(* ===================================================================== *)

Module Sample.

#[local] Existing Instance Q_float.

Definition word (x0 y0 x1 y1 : Q) (t : string) (n : nat) : RawWord :=
  {| raw_x0 := x0; raw_y0 := y0; raw_x1 := x1; raw_y1 := y1;
     raw_text := lit t; block_no := 0; line_no := 0; word_no := n |}.

(** A word, a token of blanks and a word around a control character. *)
Definition hello : RawWord := word 72 100 120 115 "Hello" 0.
Definition blanks : RawWord := word 125 100 130 115 "   " 1.
Definition world : RawWord :=
  {| raw_x0 := 135%Q; raw_y0 := 100.125%Q; raw_x1 := 180.5%Q; raw_y1 := 115.375%Q;
     raw_text := lit " wor" ++ ["007"%char] ++ lit "ld ";
     block_no := 0; line_no := 0; word_no := 2 |}.

Definition good_pages : list PageSrc :=
  [Page 792%Q 612%Q [hello; blanks; world]; Page 792%Q 612%Q []].

Definition bad_pages : list PageSrc :=
  [Page 792%Q 612%Q [hello]; BrokenPage (lit "cannot load page")].

Definition empty_world : World :=
  {| fs := ∅; disk := λ _, NoFault; refusal := λ _, None; stdout := [];
     fitz_calls := []; live_docs := [] |}.

(** One good document, one with a damaged second page, one output of an
    earlier run whose input is gone, and the default directory. *)
Definition files : gmap str Entry :=
  <[lit "a/good.pdf" := File (PdfDoc good_pages)]>
  (<[lit "a/bad.pdf" := File (PdfDoc bad_pages)]>
  (<[lit "a/gone.json" := File (JsonDoc ∅)]>
  (<[lit "chapters/ancient-history" := Dir [lit "rome.PDF"; lit "notes.txt"]]>
  (<[lit "chapters/ancient-history/rome.PDF" := File (PdfDoc good_pages)]> ∅)))).

Definition w0 : World := set_fs (λ _, files) empty_world.

Definition good_pdf : str := lit "a/good.pdf".
Definition good_json : str := lit "a/good.json".
Definition bad_pdf : str := lit "a/bad.pdf".
Definition gone_pdf : str := lit "a/gone.pdf".

(** The world after the good document has been extracted. *)
Definition w_good : World := (pdf_to_word_json good_pdf w0).2.

(** A command line with a good document, a missing one, a file that is no
    PDF by its name and a damaged document. *)
Definition argv : list str :=
  [lit "process_pdf.py"; good_pdf; gone_pdf; lit "a/gone.json"; bad_pdf].

(** A PDF document whose name ends in [.json], and a world that holds it. *)
Definition scan_json : str := lit "a/scan.json".
Definition w_scan : World :=
  set_fs (insert scan_json (File (PdfDoc good_pages))) w0.

(** A world with a directory where the output of the good document goes. *)
Definition w_dir : World := set_fs (insert good_json (Dir [])) w0.

(** A world whose system refuses every removal. *)
Definition w_locked : World :=
  {| fs := files; disk := λ _, NoFault;
     refusal := λ _, Some (lit "Operation not permitted");
     stdout := []; fitz_calls := []; live_docs := [] |}.

(** A world where the dump of the good document fails midway and the
    system refuses every removal. *)
Definition w_full : World :=
  {| fs := files;
     disk := λ path, if decide (path = good_json)
                     then FailDump (lit "No space left on device")
                     else NoFault;
     refusal := λ _, Some (lit "Operation not permitted");
     stdout := []; fitz_calls := []; live_docs := [] |}.

End Sample.

(** Sample worlds over binary64. *)
Module Sample64.

Import PrimFloat.

#[local] Existing Instance binary64.

Definition hello : RawWord :=
  {| raw_x0 := 72%float; raw_y0 := 100%float;
     raw_x1 := 120%float; raw_y1 := 115%float;
     raw_text := lit "Hello";
     block_no := 0; line_no := 0; word_no := 0 |}.

Definition world : RawWord :=
  {| raw_x0 := 135%float; raw_y0 := 100.125%float;
     raw_x1 := 180.5%float; raw_y1 := 115.375%float;
     raw_text := lit "world";
     block_no := 0; line_no := 0; word_no := 1 |}.

Definition pages : list PageSrc :=
  [Page 792%float 612%float [hello; world]].

(** A page whose height is not a number. *)
Definition nan_pages : list PageSrc :=
  [Page PrimFloat.nan 612%float [hello]].

Definition doc_pdf : str := lit "b/doc.pdf".
Definition doc_json : str := lit "b/doc.json".
Definition nan_pdf : str := lit "b/nan.pdf".
Definition nan_json : str := lit "b/nan.json".

Definition w64 : World :=
  {| fs := <[doc_pdf := File (PdfDoc pages)]>
           (<[nan_pdf := File (PdfDoc nan_pages)]> ∅);
     disk := λ _, NoFault; refusal := λ _, None; stdout := [];
     fitz_calls := []; live_docs := [] |}.

End Sample64.

(* ===================================================================== *)
(** * Properties                                                          *)
(* ===================================================================== *)

Section PyLemmas.

Lemma clip_in_range (i : Z) (s : str) :
  0 ≤ i ≤ len s → clip i s = Z.to_nat i.
Proof.
  intros [Hlo Hhi]. unfold clip.
  destruct (Z.ltb_spec i 0); [lia|]. f_equal. lia.
Qed.

Lemma rfind_from_absent c s i last :
  c ∉ s → rfind_from c s i last = last.
Proof.
  revert i last. induction s as [|x s IH]; intros i last Hc; [done|].
  apply not_elem_of_cons in Hc as [Hx Hs]. simpl.
  destruct (Ascii.eqb_spec x c); [congruence|]. by apply IH.
Qed.

Lemma rfind_from_last c a b i last :
  c ∉ b → rfind_from c (a ++ c :: b) i last = i + Z.of_nat (length a).
Proof.
  intros Hb. revert i last. induction a as [|x a IH]; intros i last; simpl.
  - rewrite Ascii.eqb_refl, rfind_from_absent by done. lia.
  - rewrite IH. lia.
Qed.

(** The last occurrence of a character splits the string. *)
Lemma last_occurrence (c : ascii) (s : str) :
  c ∉ s ∨ ∃ a b, s = a ++ c :: b ∧ (c ∉ b).
Proof.
  induction s as [|x s [IH|(a & b & -> & Hb)]].
  - left. apply not_elem_of_nil.
  - destruct (decide (x = c)) as [->|Hne].
    + right. exists [], s. done.
    + left. by apply not_elem_of_cons.
  - right. exists (x :: a), b. done.
Qed.

Lemma rfind_absent c s : c ∉ s → rfind c s = -1.
Proof. apply rfind_from_absent. Qed.

Lemma rfind_last c a b : c ∉ b → rfind c (a ++ c :: b) = Z.of_nat (length a).
Proof. intros. unfold rfind. by rewrite rfind_from_last. Qed.

Lemma slice_from_0 s : slice_from 0 s = s.
Proof. unfold slice_from. rewrite clip_in_range; [done|unfold len; lia]. Qed.

Lemma slice_to_0 s : slice_to 0 s = [].
Proof. unfold slice_to. rewrite clip_in_range; [done|unfold len; lia]. Qed.

Lemma len_app a b : len (a ++ b) = len a + len b.
Proof. unfold len. rewrite length_app. lia. Qed.

Lemma slice_to_app a b : slice_to (len a) (a ++ b) = a.
Proof.
  unfold slice_to. rewrite clip_in_range.
  - unfold len. rewrite Nat2Z.id. by rewrite take_app_length.
  - rewrite len_app. unfold len. lia.
Qed.

Lemma slice_from_app a b : slice_from (len a) (a ++ b) = b.
Proof.
  unfold slice_from. rewrite clip_in_range.
  - unfold len. rewrite Nat2Z.id. by rewrite drop_app_length.
  - rewrite len_app. unfold len. lia.
Qed.

Lemma slice_0_app a b : slice 0 (len a) (a ++ b) = a.
Proof.
  unfold slice. rewrite !clip_in_range by (rewrite ?len_app; unfold len; lia).
  unfold len. rewrite Nat2Z.id. change (Z.to_nat 0) with 0%nat.
  by rewrite Nat.sub_0_r, drop_0, take_app_length.
Qed.

End PyLemmas.

Section Paths.

Import posixpath.

Lemma basename_cases (p : str) :
  ((sep ∉ p) ∧ basename p = p)
  ∨ ∃ a b, p = a ++ sep :: b ∧ (sep ∉ b) ∧ basename p = b.
Proof.
  unfold basename.
  destruct (last_occurrence sep p) as [Hno|(a & b & -> & Hb)].
  - left. split; [done|]. rewrite rfind_absent by done. apply slice_from_0.
  - right. exists a, b. split_and!; [done..|].
    rewrite rfind_last by done.
    replace (Z.of_nat (length a) + 1) with (len (a ++ [sep]))
      by (rewrite len_app; unfold len; simpl; lia).
    rewrite (cons_middle sep a b), (assoc_L (++)). apply slice_from_app.
Qed.

Lemma basename_no_sep (p : str) : sep ∉ basename p.
Proof. destruct (basename_cases p) as [[? ->]|(a & b & -> & ? & ->)]; done. Qed.

Lemma splitext_cases (p : str) :
  sep ∉ p →
  (splitext p = (p, []) ∧ ∃ n rest, p = replicate n extsep ++ rest ∧ (extsep ∉ rest))
  ∨ ∃ a b, p = a ++ extsep :: b ∧ (extsep ∉ b) ∧ (∃ c, c ∈ a ∧ c ≠ extsep)
           ∧ splitext p = (a, extsep :: b).
Proof.
  intros Hsep. unfold splitext. rewrite (rfind_absent sep p Hsep).
  destruct (last_occurrence extsep p) as [Hno|(a & b & -> & Hb)].
  - left. rewrite rfind_absent by done. simpl. rewrite slice_to_0.
    split; [done|]. by exists 0%nat, p.
  - rewrite rfind_last by done.
    replace (-1 <? Z.of_nat (length a)) with true by (symmetry; apply Z.ltb_lt; lia).
    change (-1 + 1) with 0. change (Z.of_nat (length a)) with (len a).
    rewrite slice_0_app, slice_to_app, slice_from_app, slice_to_0. simpl.
    destruct (existsb _ a) eqn:Hex.
    + right. exists a, b. split_and!; [done..| |done].
      apply existsb_exists in Hex as (c & Hc & Hne).
      exists c. split; [by apply list_elem_of_In|].
      intros ->. by rewrite Ascii.eqb_refl in Hne.
    + left. split; [done|]. exists (S (length a)), b. split; [|done].
      assert (a = replicate (length a) extsep) as Ha.
      { clear -Hex. induction a as [|x a IH]; [done|]. simpl in *.
        apply orb_false_iff in Hex as [Hx Ha].
        apply negb_false_iff, Ascii.eqb_eq in Hx as ->. f_equal. by apply IH. }
      rewrite Ha at 1. rewrite (cons_middle extsep), (assoc_L (++)).
      by rewrite <- replicate_S_end.
Qed.

End Paths.

Lemma not_word_or_hyphen_false c :
  not_word_or_hyphen c = false ↔ word_or_hyphen c.
Proof.
  unfold not_word_or_hyphen, word_or_hyphen.
  rewrite negb_false_iff, !orb_true_iff, !Ascii.eqb_eq. tauto.
Qed.

(** C7. [sanitize_filename] splits its argument into a directory part
    (empty, or ending with the last [/]) and a base without [/], splits
    the base into a stem and an extension (empty when no dot follows a
    character of the base other than a dot, else from the last dot on),
    and returns the stem with every character that is not alphanumeric,
    an underscore or a hyphen replaced by an underscore and the other
    characters kept. *)
Theorem sanitize_filename_strips_and_replaces (filename : str) :
  ∃ dir base stem ext : str,
    filename = dir ++ base
    ∧ (dir = [] ∨ ∃ d, dir = d ++ [posixpath.sep])
    ∧ (posixpath.sep ∉ base)
    ∧ base = stem ++ ext
    ∧ ((ext = [] ∧ ∃ n rest, base = replicate n posixpath.extsep ++ rest
                             ∧ (posixpath.extsep ∉ rest))
       ∨ (∃ e, ext = posixpath.extsep :: e ∧ (posixpath.extsep ∉ e))
         ∧ ∃ c, c ∈ stem ∧ c ≠ posixpath.extsep)
    ∧ sanitize_filename filename
      = map (λ c, if isalnum c || Ascii.eqb c "_" || Ascii.eqb c "-"
                  then c else "_"%char) stem
    ∧ Forall word_or_hyphen (sanitize_filename filename).
Proof.
  assert (∃ dir, filename = dir ++ posixpath.basename filename
                 ∧ (dir = [] ∨ ∃ d, dir = d ++ [posixpath.sep])) as (dir & Hdir & Hd).
  { destruct (basename_cases filename) as [[_ ->]|(a & b & Hp & _ & ->)].
    - exists []. by split; [|left].
    - exists (a ++ [posixpath.sep]). split; [by rewrite <- (assoc_L (++))|].
      right. by exists a. }
  exists dir, (posixpath.basename filename).
  pose proof (basename_no_sep filename) as Hsep.
  assert (∀ stem, Forall word_or_hyphen
            (re_sub_class not_word_or_hyphen "_" stem)) as Hall.
  { intros stem. unfold re_sub_class. apply Forall_fmap, Forall_forall.
    intros c _. simpl. destruct (not_word_or_hyphen c) eqn:Hc.
    - right. by left.
    - by apply not_word_or_hyphen_false. }
  assert (∀ stem, re_sub_class not_word_or_hyphen "_" stem
           = map (λ c, if isalnum c || Ascii.eqb c "_" || Ascii.eqb c "-"
                       then c else "_"%char) stem) as Hmap.
  { intros stem. unfold re_sub_class, not_word_or_hyphen.
    apply map_ext. intros c. by destruct (_ || _). }
  unfold sanitize_filename.
  destruct (splitext_cases _ Hsep) as [[Heq Hdots]|(a & b & Hp & Hb & Hc & Heq)];
    rewrite Heq.
  - exists (posixpath.basename filename), [].
    split_and!; [done..|by rewrite (right_id_L [] (++))|by left|apply Hmap|apply Hall].
  - exists a, (posixpath.extsep :: b).
    split_and!; [done..| |apply Hmap|apply Hall].
    right. split; [by exists b|done].
Qed.

Section Strip.

Context (p : ascii → bool).

Lemma lstrip_with_split (s : str) :
  ∃ a, s = a ++ lstrip_with p s ∧ Forall (λ c, p c = true) a.
Proof.
  induction s as [|c s (a & Ha & Hall)]; simpl.
  - by exists [].
  - destruct (p c) eqn:Hc.
    + exists (c :: a). split; [by rewrite <- app_comm_cons, <- Ha|by constructor].
    + by exists [].
Qed.

Lemma lstrip_with_head (s : str) :
  match lstrip_with p s with [] => True | c :: _ => p c = false end.
Proof.
  induction s as [|c s IH]; simpl; [done|].
  destruct (p c) eqn:Hc; [done|]. done.
Qed.

Lemma lstrip_with_id (c : ascii) (s : str) :
  p c = false → lstrip_with p (c :: s) = c :: s.
Proof. intros Hc. simpl. by rewrite Hc. Qed.

Lemma lstrip_with_nil (s : str) :
  lstrip_with p s = [] ↔ Forall (λ c, p c = true) s.
Proof.
  split.
  - intros Hnil. destruct (lstrip_with_split s) as (a & Ha & Hall).
    rewrite Hnil, (right_id_L [] (++)) in Ha. by subst.
  - induction 1 as [|c s Hc _ IH]; simpl; [done|]. by rewrite Hc.
Qed.

Lemma rstrip_with_split (s : str) :
  ∃ b, s = rstrip_with p s ++ b ∧ Forall (λ c, p c = true) b.
Proof.
  unfold rstrip_with.
  destruct (lstrip_with_split (reverse s)) as (a & Ha & Hall).
  exists (reverse a). split; [|by apply Forall_reverse].
  rewrite <- reverse_app, <- Ha. by rewrite reverse_involutive.
Qed.

Lemma rstrip_with_nil (s : str) :
  rstrip_with p s = [] ↔ Forall (λ c, p c = true) s.
Proof.
  unfold rstrip_with. rewrite <- (Forall_reverse _ s), <- lstrip_with_nil.
  split; intros H.
  - apply (f_equal reverse) in H. by rewrite reverse_involutive in H.
  - by rewrite H.
Qed.

Lemma rstrip_with_last (s : str) :
  match last (rstrip_with p s) with None => True | Some c => p c = false end.
Proof.
  unfold rstrip_with. rewrite last_reverse.
  pose proof (lstrip_with_head (reverse s)) as H.
  by destruct (lstrip_with p (reverse s)).
Qed.

Lemma rstrip_with_id (s : str) (c : ascii) :
  p c = false → rstrip_with p (s ++ [c]) = s ++ [c].
Proof.
  intros Hc. unfold rstrip_with. rewrite reverse_snoc, lstrip_with_id by done.
  by rewrite reverse_cons, reverse_involutive.
Qed.

End Strip.

Lemma strip_nil (s : str) :
  strip s = [] ↔ Forall (λ c, isspace c = true) s.
Proof.
  unfold strip. rewrite rstrip_with_nil. split.
  - intros H. destruct (lstrip_with_split isspace s) as (a & Ha & Hall).
    rewrite Ha. by apply Forall_app.
  - intros H. apply lstrip_with_nil in H. by rewrite H.
Qed.

(** What [strip] returns is a segment of its argument. *)
Lemma strip_split (s : str) :
  ∃ a b, s = a ++ strip s ++ b.
Proof.
  destruct (lstrip_with_split isspace s) as (a & Ha & _).
  destruct (rstrip_with_split isspace (lstrip_with isspace s)) as (b & Hb & _).
  exists a, b. unfold strip. by rewrite <- Hb.
Qed.

(** What [strip] returns neither starts nor ends with white space... *)
Lemma strip_ends (s : str) :
  strip s = []
  ∨ (∃ c, strip s = [c] ∧ isspace c = false)
  ∨ ∃ c m d, strip s = c :: m ++ [d] ∧ isspace c = false ∧ isspace d = false.
Proof.
  unfold strip.
  pose proof (lstrip_with_head isspace s) as Hhead.
  pose proof (rstrip_with_last isspace (lstrip_with isspace s)) as Hlast.
  destruct (rstrip_with_split isspace (lstrip_with isspace s)) as (b & Hb & _).
  destruct (rstrip_with isspace (lstrip_with isspace s)) as [|c r] eqn:Hr; [by left|].
  right. rewrite Hb in Hhead. simpl in Hhead.
  destruct r as [|d r _] using rev_ind.
  - left. by exists c.
  - right. rewrite app_comm_cons, last_snoc in Hlast. by exists c, r, d.
Qed.

(** ... so stripping it again changes nothing. *)
Lemma strip_idemp (s : str) : strip (strip s) = strip s.
Proof.
  destruct (strip_ends s) as [->|[(c & -> & Hc)|(c & m & d & -> & Hc & Hd)]];
    [done|..]; unfold strip; rewrite lstrip_with_id by done.
  - by apply (rstrip_with_id isspace []).
  - rewrite app_comm_cons. by apply rstrip_with_id.
Qed.

Lemma truthy_false (s : str) : truthy s = false ↔ s = [].
Proof. by destruct s. Qed.

Lemma truthy_true (s : str) : truthy s = true ↔ s ≠ [].
Proof. by destruct s. Qed.

Lemma clean_word_nil (t : str) :
  clean_word t = [] ↔ Forall (λ c, isprintable c = false ∨ isspace c = true) t.
Proof.
  unfold clean_word. rewrite strip_nil, !Forall_forall. split.
  - intros H c Hc. destruct (isprintable c) eqn:Hp; [right|by left].
    apply H. apply list_elem_of_In, filter_In. split; [by apply list_elem_of_In|done].
  - intros H c Hc. apply list_elem_of_In, filter_In in Hc as [Hc Hp].
    apply list_elem_of_In in Hc. destruct (H c Hc); congruence.
Qed.

Lemma clean_word_printable (t : str) :
  Forall (λ c, isprintable c = true) (clean_word t).
Proof.
  unfold clean_word.
  destruct (strip_split (List.filter isprintable t)) as (a & b & Hab).
  assert (Forall (λ c, isprintable c = true) (List.filter isprintable t)) as Hall.
  { apply Forall_forall. intros c Hc. by apply list_elem_of_In, filter_In in Hc as [_ ?]. }
  rewrite Hab in Hall at 1. by apply Forall_app in Hall as [_ [? _]%Forall_app].
Qed.

Lemma filter_all {A} (f : A → bool) (l : list A) :
  Forall (λ x, f x = true) l → List.filter f l = l.
Proof. induction 1 as [|x l Hx _ IH]; simpl; [done|]. by rewrite Hx, IH. Qed.

Lemma clean_word_idemp (t : str) : clean_word (clean_word t) = clean_word t.
Proof.
  unfold clean_word at 1. rewrite filter_all by apply clean_word_printable.
  apply strip_idemp.
Qed.

Section Words.

Context {F : PyFloat}.

Lemma word_body_kept (H : float) (w : RawWord) (acc : list WordRec) :
  word_body H w acc
  = acc ++ (if kept w
            then [ {| text := clean_word (raw_text w);
                      bbox := [round2 (raw_x0 w); round2 (fsub H (raw_y1 w));
                               round2 (raw_x1 w); round2 (fsub H (raw_y0 w))] |} ]
            else []).
Proof.
  unfold word_body, kept. simpl.
  destruct (truthy _); simpl; [done|]. by rewrite (right_id_L [] (++)).
Qed.

Lemma words_loop_filter (H : float) (ws : list RawWord) :
  words_loop H ws
  = map (λ w, {| text := clean_word (raw_text w);
                 bbox := [round2 (raw_x0 w); round2 (fsub H (raw_y1 w));
                          round2 (raw_x1 w); round2 (fsub H (raw_y0 w))] |})
        (List.filter kept ws).
Proof.
  unfold words_loop.
  enough (∀ acc, fold_left (λ acc w, word_body H w acc) ws acc
                 = acc ++ map (λ w, {| text := clean_word (raw_text w);
                 bbox := [round2 (raw_x0 w); round2 (fsub H (raw_y1 w));
                          round2 (raw_x1 w); round2 (fsub H (raw_y0 w))] |})
                            (List.filter kept ws)) as Hacc by apply (Hacc []).
  induction ws as [|w ws IH]; intros acc; simpl.
  - by rewrite (right_id_L [] (++)).
  - rewrite IH, word_body_kept. destruct (kept w); simpl.
    + by rewrite <- (assoc_L (++)).
    + by rewrite (right_id_L [] (++)).
Qed.

Lemma words_loop_texts (H : float) (ws : list RawWord) :
  map text (words_loop H ws)
  = List.filter truthy (map (λ w, clean_word (raw_text w)) ws).
Proof.
  rewrite words_loop_filter, map_map. simpl.
  induction ws as [|w ws IH]; simpl; [done|].
  unfold kept at 1. destruct (truthy _); simpl; by rewrite IH.
Qed.

End Words.

Lemma round_half_even_bounds (q : Q) :
  Qfloor q ≤ round_half_even q ≤ Qfloor q + 1.
Proof.
  unfold round_half_even.
  destruct (_ ?= _)%Q; [destruct (Z.even _)|..]; lia.
Qed.

Lemma Qcompare_cases (p q : Q) :
  match (p ?= q)%Q with
  | Lt => (p < q)%Q
  | Eq => (p == q)%Q
  | Gt => (q < p)%Q
  end.
Proof.
  destruct (p ?= q)%Q eqn:H.
  - by apply Qeq_alt.
  - by apply Qlt_alt.
  - by apply Qgt_alt in H.
Qed.

Lemma round_half_even_mono (q1 q2 : Q) :
  (q1 <= q2)%Q → round_half_even q1 ≤ round_half_even q2.
Proof.
  intros Hle. pose proof (Qfloor_resp_le _ _ Hle) as Hfl.
  destruct (Z.eq_dec (Qfloor q1) (Qfloor q2)) as [Heq|Hne].
  - unfold round_half_even. rewrite <- Heq.
    pose proof (Qcompare_cases (q1 - inject_Z (Qfloor q1)) (1 # 2)) as H1.
    pose proof (Qcompare_cases (q2 - inject_Z (Qfloor q1)) (1 # 2)) as H2.
    destruct (q1 - inject_Z (Qfloor q1) ?= 1 # 2)%Q;
      destruct (q2 - inject_Z (Qfloor q1) ?= 1 # 2)%Q;
      try (destruct (Z.even _)); try lia; exfalso; lra.
  - pose proof (round_half_even_bounds q1). pose proof (round_half_even_bounds q2). lia.
Qed.

Lemma Q_round2_mono (a b : Q) : (a <= b)%Q → (Q_round2 a <= Q_round2 b)%Q.
Proof.
  intros Hle. unfold Q_round2.
  apply Qmult_le_compat_r; [|done].
  rewrite <- Zle_Qle. apply round_half_even_mono. lra.
Qed.

Lemma Q_sub_antitone (h a b : Q) : (a <= b)%Q → (Q_sub h b <= Q_sub h a)%Q.
Proof. intros Hle. unfold Q_sub. rewrite !Qred_correct. lra. Qed.

(* ===================================================================== *)
(** ** binary64: subtraction and rounding keep the order                  *)
(* ===================================================================== *)

Lemma half_even_div_bounds (a c : Z) :
  0 < c → a / c ≤ half_even_div a c ≤ a / c + 1.
Proof.
  intros Hc. unfold half_even_div.
  destruct (2 * (a mod c) ?= c); [destruct (Z.even _)|..]; lia.
Qed.

Lemma half_even_div_exact (k c : Z) : 0 < c → half_even_div (k * c) c = k.
Proof.
  intros Hc. unfold half_even_div.
  rewrite Z.mod_mul, Z.div_mul by lia.
  destruct (Z.compare_spec (2 * 0) c); lia.
Qed.

Lemma half_even_div_mono (a1 a2 c : Z) :
  0 < c → a1 ≤ a2 → half_even_div a1 c ≤ half_even_div a2 c.
Proof.
  intros Hc Hle.
  pose proof (Z.div_le_mono a1 a2 c Hc Hle) as Hq.
  pose proof (half_even_div_bounds a1 c Hc) as H1.
  pose proof (half_even_div_bounds a2 c Hc) as H2.
  destruct (decide (a1 / c = a2 / c)) as [Heq|Hne]; [|lia].
  assert (a1 mod c ≤ a2 mod c) as Hrem.
  { rewrite !Z.mod_eq by lia. rewrite Heq. lia. }
  unfold half_even_div. rewrite Heq.
  destruct (Z.compare_spec (2 * (a1 mod c)) c), (Z.compare_spec (2 * (a2 mod c)) c);
    destruct (Z.even (a2 / c)); lia.
Qed.

Lemma half_even_div_scale (a c t : Z) :
  0 < c → 0 < t → half_even_div (a * t) (c * t) = half_even_div a c.
Proof.
  intros Hc Ht. unfold half_even_div.
  rewrite Z.div_mul_cancel_r, Z.mul_mod_distr_r by lia.
  replace (2 * (a mod c * t)) with (2 * (a mod c) * t) by lia.
  assert ((2 * (a mod c) * t ?= c * t) = (2 * (a mod c) ?= c)) as ->; [|done].
  destruct (Z.compare_spec (2 * (a mod c)) c) as [Heq|Hlt|Hgt].
  - rewrite Heq. apply Z.compare_refl.
  - apply Z.compare_lt_iff. nia.
  - apply Z.compare_gt_iff. nia.
Qed.

Lemma half_even_div_nonneg (a c : Z) : 0 < c → 0 ≤ a → 0 ≤ half_even_div a c.
Proof.
  intros Hc Ha. pose proof (half_even_div_bounds a c Hc).
  pose proof (Z.div_pos a c Ha Hc). lia.
Qed.

Section Binary64Facts.

Import SpecFloat FloatOps.

#[local] Abbreviation emin := (-1074).

Lemma fexp_eq (z : Z) : fexp prec emax z = Z.max (z - 53) emin.
Proof. reflexivity. Qed.

Lemma Zdigits2_log2 (m : Z) : 0 < m → Zdigits2 m = Z.log2 m + 1.
Proof.
  destruct m as [|p|p]; try lia. intros _. simpl.
  assert (∀ q, digits2_pos q = Pos.size q) as Hsize.
  { induction q; simpl; congruence. }
  rewrite Hsize. destruct p; simpl; lia.
Qed.

Lemma Zdigits2_bounds (m : Z) :
  0 < m → 2 ^ (Zdigits2 m - 1) ≤ m < 2 ^ Zdigits2 m.
Proof.
  intros Hm. rewrite Zdigits2_log2 by done.
  pose proof (Z.log2_spec m Hm). replace (Z.log2 m + 1 - 1) with (Z.log2 m) by lia.
  replace (Z.log2 m + 1) with (Z.succ (Z.log2 m)) by lia. done.
Qed.

Lemma Zdigits2_unique (m d : Z) :
  2 ^ (d - 1) ≤ m < 2 ^ d → 0 < d → Zdigits2 m = d.
Proof.
  intros Hm Hd. assert (0 < m) by (pose proof (Z.pow_pos_nonneg 2 (d - 1)); lia).
  rewrite Zdigits2_log2 by done.
  rewrite (Z.log2_unique m (d - 1)); [lia|lia|].
  by replace (Z.succ (d - 1)) with d by lia.
Qed.

Lemma Zdigits2_pos (m : Z) : 0 < m → 0 < Zdigits2 m.
Proof.
  intros Hm. rewrite Zdigits2_log2 by done. pose proof (Z.log2_nonneg m). lia.
Qed.

(** One step of the shift on a record with a mantissa that is not
    negative. *)
Lemma shr_1_spec (m : Z) (r s : bool) :
  0 ≤ m →
  shr_1 {| shr_m := m; shr_r := r; shr_s := s |}
  = {| shr_m := m / 2; shr_r := Z.odd m; shr_s := r || s |}.
Proof.
  intros Hm. destruct m as [|p|p]; [done| |lia].
  destruct p as [p|p|]; simpl.
  - f_equal. rewrite Pos2Z.inj_xI. rewrite Z.add_comm, Z.mul_comm, Z.div_add by lia.
    done.
  - f_equal. rewrite Pos2Z.inj_xO. by rewrite Z.mul_comm, Z.div_mul by lia.
  - done.
Qed.

Lemma iter_pos_nat {A} (f : A → A) (p : positive) (x : A) :
  iter_pos f p x = Nat.iter (Pos.to_nat p) f x.
Proof.
  revert x. induction p as [p IH|p IH|]; intros x; cbn [iter_pos].
  - rewrite !IH, Pos2Nat.inj_xI.
    replace (S (2 * Pos.to_nat p)) with (Pos.to_nat p + (Pos.to_nat p + 1))%nat by lia.
    rewrite !Nat.iter_add. done.
  - rewrite !IH, Pos2Nat.inj_xO.
    replace (2 * Pos.to_nat p)%nat with (Pos.to_nat p + Pos.to_nat p)%nat by lia.
    by rewrite Nat.iter_add.
  - done.
Qed.

Lemma locates_shr_1 (a c : Z) (mrs : shr_record) :
  0 ≤ a → 0 < c → locates a c mrs → locates a (c * 2) (shr_1 mrs).
Proof.
  intros Ha Hc (Hm & Hr & Hs). destruct mrs as [m r s]. simpl in Hm, Hr, Hs.
  rewrite shr_1_spec by (subst m; by apply Z.div_pos).
  pose proof (Z.mod_pos_bound a c Hc) as Hrem.
  assert (a mod (c * 2) = a mod c + c * ((a / c) mod 2)) as Hmod
    by (apply Z.rem_mul_r; lia).
  pose proof (Z.mod_pos_bound (a / c) 2 ltac:(lia)) as Hbit.
  split_and!; simpl.
  - subst m. by rewrite Z.div_div by lia.
  - subst m. rewrite Hmod. rewrite Zodd_mod.
    destruct (Z.eqb_spec ((a / c) mod 2) 1) as [H1|H1];
      symmetry; [apply Z.leb_le|apply Z.leb_gt]; nia.
  - rewrite Hr, Hs. rewrite Hmod.
    assert ((2 * (a mod c + c * ((a / c) mod 2))) mod (c * 2) = 2 * (a mod c)) as ->.
    { destruct (decide ((a / c) mod 2 = 0)) as [H0|H0].
      - rewrite H0. rewrite Z.mul_0_r, Z.add_0_r.
        rewrite (Z.mul_comm c 2), Z.mul_mod_distr_l by lia.
        by rewrite Z.mod_mod by lia.
      - assert ((a / c) mod 2 = 1) as -> by lia.
        replace (2 * (a mod c + c * 1)) with (2 * (a mod c) + 1 * (c * 2)) by lia.
        rewrite Z.mod_add by lia. rewrite (Z.mul_comm c 2), Z.mul_mod_distr_l by lia.
        by rewrite Z.mod_mod by lia. }
    destruct (Z.leb_spec c (2 * (a mod c))) as [Hge|Hlt]; simpl.
    + symmetry. apply negb_true_iff, Z.eqb_neq. lia.
    + rewrite Z.mod_small by lia. done.
Qed.

Lemma locates_iter (n : nat) (a c : Z) (mrs : shr_record) :
  0 ≤ a → 0 < c → locates a c mrs →
  locates a (c * 2 ^ Z.of_nat n) (Nat.iter n shr_1 mrs).
Proof.
  intros Ha Hc Hloc. induction n as [|n IH].
  - simpl. by rewrite Z.mul_1_r.
  - rewrite Nat2Z.inj_succ, Z.pow_succ_r by lia. simpl.
    replace (c * (2 * 2 ^ Z.of_nat n)) with (c * 2 ^ Z.of_nat n * 2) by lia.
    apply locates_shr_1; [done| |done].
    pose proof (Z.pow_pos_nonneg 2 (Z.of_nat n)). nia.
Qed.

Lemma locates_shr (a c : Z) (mrs : shr_record) (e n : Z) :
  0 ≤ a → 0 < c → 0 ≤ n → locates a c mrs →
  locates a (c * 2 ^ n) (shr mrs e n).1 ∧ (shr mrs e n).2 = e + n.
Proof.
  intros Ha Hc Hn Hloc. destruct n as [|p|p]; [| |lia].
  - simpl. split; [|lia]. by rewrite Z.mul_1_r.
  - cbn [shr fst snd]. split; [|done]. rewrite iter_pos_nat.
    pose proof (locates_iter (Pos.to_nat p) a c mrs Ha Hc Hloc) as H.
    by rewrite positive_nat_Z in H.
Qed.

Lemma round_nearest_even_locates (a c : Z) (mrs : shr_record) :
  0 ≤ a → 0 < c → locates a c mrs →
  round_nearest_even (shr_m mrs) (loc_of_shr_record mrs) = half_even_div a c.
Proof.
  intros Ha Hc (Hm & Hr & Hs). destruct mrs as [m r s]. simpl in *.
  pose proof (Z.mod_pos_bound a c Hc) as Hrem.
  unfold half_even_div. rewrite <- Hm.
  destruct (Z.leb_spec c (2 * (a mod c))) as [Hge|Hlt]; subst r.
  - destruct (Z.eqb_spec ((2 * (a mod c)) mod c) 0) as [H0|H0]; subst s; simpl.
    + assert (2 * (a mod c) = c) as Heq.
      { apply Z.mod_divide in H0 as [k Hk]; [|lia].
        assert (0 < k) by nia. assert (k < 2) by nia. nia. }
      rewrite Heq, Z.compare_refl. done.
    + assert (2 * (a mod c) ≠ c) as Hne.
      { intros Heq. rewrite Heq, Z.mod_same in H0 by lia. done. }
      destruct (Z.compare_spec (2 * (a mod c)) c); [lia|lia|done].
  - assert ((2 * (a mod c) ?= c) = Lt) as -> by (by apply Z.compare_lt_iff).
    by destruct s.
Qed.

Lemma shr_m_of_loc (m : Z) (l : location) : shr_m (shr_record_of_loc m l) = m.
Proof. by destruct l as [|[]]. Qed.

Lemma shr_nonpos (mrs : shr_record) (e n : Z) : n ≤ 0 → shr mrs e n = (mrs, e).
Proof. intros Hn. destruct n; [done|lia|done]. Qed.

Lemma div_pow2_bounds (m d n : Z) :
  0 ≤ n → n < d → 2 ^ (d - 1) ≤ m < 2 ^ d →
  2 ^ (d - 1 - n) ≤ m / 2 ^ n < 2 ^ (d - n).
Proof.
  intros Hn Hd [Hlo Hhi].
  assert (0 < 2 ^ n) by (by apply Z.pow_pos_nonneg).
  split.
  - apply Z.div_le_lower_bound; [done|].
    rewrite <- Z.pow_add_r by lia. by replace (n + (d - 1 - n)) with (d - 1) by lia.
  - apply Z.div_lt_upper_bound; [done|].
    rewrite <- Z.pow_add_r by lia. by replace (n + (d - n)) with d by lia.
Qed.

Lemma binary_round_aux_spec (s : bool) (m e : Z) (l : location) (a c : Z) :
  0 ≤ a → 0 < c → 0 < m →
  locates a c (shr_record_of_loc m l) →
  emin ≤ e → e ≤ fexp prec emax (Zdigits2 m + e) →
  let k := fexp prec emax (Zdigits2 m + e) in
  let M := half_even_div a (c * 2 ^ (k - e)) in
  binary_round_aux prec emax s m e l = pack s M k
  ∧ 0 < M ≤ 2 ^ 53 ∧ (emin < k → 2 ^ 52 ≤ M).
Proof.
  intros Ha Hc Hm Hloc He Hshift k M.
  pose proof (Zdigits2_bounds m Hm) as Hd.
  pose proof (Zdigits2_pos m Hm) as Hdpos.
  set (d := Zdigits2 m) in *.
  assert (k = Z.max (d + e - 53) emin) as Hk by apply fexp_eq.
  assert (0 < 2 ^ (k - e)) as Hpow by (apply Z.pow_pos_nonneg; lia).
  destruct (locates_shr a c (shr_record_of_loc m l) e (k - e) Ha Hc ltac:(lia) Hloc)
    as [Hloc1 He1].
  (* the mantissa after the first shift *)
  assert (a / (c * 2 ^ (k - e)) = m / 2 ^ (k - e)) as Hm1.
  { destruct Hloc as [Hq _]. rewrite shr_m_of_loc in Hq.
    rewrite <- Z.div_div by lia. by rewrite <- Hq. }
  assert (0 < m / 2 ^ (k - e) < 2 ^ 53
          ∧ (emin < k → 2 ^ 52 ≤ m / 2 ^ (k - e))) as (Hm1pos & Hm1lo).
  { destruct (decide (k = e)) as [Heq|Hne].
    - rewrite Heq, Z.sub_diag, Z.pow_0_r, Z.div_1_r.
      assert (d ≤ 53) by lia.
      assert (2 ^ d ≤ 2 ^ 53) by (apply Z.pow_le_mono_r; lia).
      split; [lia|]. intros Hgt. assert (d = 53) as Hd53 by lia.
      rewrite Hd53 in Hd. by destruct Hd.
    - assert (k = d + e - 53) as Hkd by lia.
      pose proof (div_pow2_bounds m d (k - e) ltac:(lia) ltac:(lia) Hd) as Hb.
      replace (d - 1 - (k - e)) with 52 in Hb by lia.
      replace (d - (k - e)) with 53 in Hb by lia.
      split; [lia|]. intros _. by destruct Hb. }
  pose proof (half_even_div_bounds a (c * 2 ^ (k - e)) ltac:(nia)) as HM.
  rewrite Hm1 in HM. fold M in HM.
  split; [|split; [lia|intros Hgt; specialize (Hm1lo Hgt); lia]].
  unfold binary_round_aux, shr_fexp. fold d. fold k.
  destruct (shr (shr_record_of_loc m l) e (k - e)) as [mrs' e'] eqn:Hshr.
  simpl in Hloc1, He1.
  rewrite (round_nearest_even_locates a (c * 2 ^ (k - e))) by (done || nia).
  fold M. replace e' with k by lia.
  unfold pack.
  destruct (Z.eqb_spec M (2 ^ 53)) as [HMeq|HMne].
  - rewrite HMeq.
    change (Zdigits2 (2 ^ 53)) with 54.
    assert (fexp prec emax (54 + k) - k = 1) as -> by (rewrite fexp_eq; lia).
    reflexivity.
  - assert (0 < M < 2 ^ 53) as HMlt by lia.
    pose proof (Zdigits2_bounds M ltac:(lia)) as HdM.
    assert (Zdigits2 M ≤ 53) as HdM53.
    { destruct (decide (Zdigits2 M ≤ 53)) as [|Hgt]; [done|].
      assert (2 ^ 53 ≤ 2 ^ (Zdigits2 M - 1)) by (apply Z.pow_le_mono_r; lia). lia. }
    rewrite shr_nonpos by (rewrite fexp_eq; lia).
    simpl. destruct M as [|p|p]; [lia| |lia]. done.
Qed.

Lemma pow2_pos (n : Z) : 0 ≤ n → 0 < 2 ^ n.
Proof. intros. by apply Z.pow_pos_nonneg. Qed.

Lemma pow2_split (a b : Z) : 0 ≤ a → 0 ≤ b → 2 ^ (a + b) = 2 ^ a * 2 ^ b.
Proof. intros. by apply Z.pow_add_r. Qed.

Lemma valid_finite (m : positive) (e : Z) :
  bounded prec emax m e = true →
  emin ≤ e ≤ 971 ∧ Z.pos m < 2 ^ 53 ∧ (emin < e → 2 ^ 52 ≤ Z.pos m).
Proof.
  unfold bounded, canonical_mantissa. intros [Hc He]%andb_true_iff.
  apply Z.eqb_eq in Hc. apply Z.leb_le in He. rewrite fexp_eq in Hc.
  change (emax - prec) with 971 in He.
  pose proof (Zdigits2_bounds (Z.pos m) ltac:(lia)) as Hd.
  change (Zdigits2 (Z.pos m)) with (Z.pos (digits2_pos m)) in Hd.
  set (d := Z.pos (digits2_pos m)) in *.
  split; [lia|]. split.
  - assert (2 ^ d ≤ 2 ^ 53) by (apply Z.pow_le_mono_r; lia). lia.
  - intros Hgt. assert (d = 53) as Hd53 by lia. rewrite Hd53 in Hd. by destruct Hd.
Qed.

Lemma finite_units_bounds (m : positive) (e : Z) :
  bounded prec emax m e = true → 0 < Z.pos m * 2 ^ (e + 1074) < 2 ^ 2098.
Proof.
  intros (He & Hm & _)%valid_finite.
  pose proof (pow2_pos (e + 1074) ltac:(lia)).
  split; [lia|].
  assert (2 ^ (e + 1074) ≤ 2 ^ 2045) by (apply Z.pow_le_mono_r; lia).
  change (2 ^ 2098) with (2 ^ 53 * 2 ^ 2045). nia.
Qed.

Lemma finite_compare (m1 m2 : positive) (e1 e2 : Z) :
  bounded prec emax m1 e1 = true → bounded prec emax m2 e2 = true →
  match e1 ?= e2 with
  | Lt => Lt
  | Gt => Gt
  | Eq => Pos.compare_cont Eq m1 m2
  end
  = (Z.pos m1 * 2 ^ (e1 + 1074) ?= Z.pos m2 * 2 ^ (e2 + 1074)).
Proof.
  intros (He1 & Hm1 & Hn1)%valid_finite (He2 & Hm2 & Hn2)%valid_finite.
  assert (∀ m m' e e', emin ≤ e → e < e' → Z.pos m < 2 ^ 53 → 2 ^ 52 ≤ Z.pos m' →
            Z.pos m * 2 ^ (e + 1074) < Z.pos m' * 2 ^ (e' + 1074)) as Hlt.
  { intros m m' e e' He Hee Hm Hm'.
    replace (e' + 1074) with (e + 1074 + (e' - e - 1) + 1) by lia.
    rewrite (pow2_split (e + 1074 + (e' - e - 1)) 1) by lia.
    rewrite (pow2_split (e + 1074) (e' - e - 1)) by lia.
    pose proof (pow2_pos (e + 1074) ltac:(lia)).
    pose proof (pow2_pos (e' - e - 1) ltac:(lia)).
    change (2 ^ 53) with (2 ^ 52 * 2) in Hm. change (2 ^ 1) with 2.
    set (P := 2 ^ (e + 1074)) in *. set (Q := 2 ^ (e' - e - 1)) in *.
    assert (Z.pos m * P < 2 * Z.pos m' * P) by nia.
    assert (2 * Z.pos m' * P * 1 ≤ 2 * Z.pos m' * P * Q)
      by (apply Z.mul_le_mono_nonneg_l; lia).
    lia. }
  destruct (Z.compare_spec e1 e2) as [->|Hee|Hee].
  - change (Pos.compare_cont Eq m1 m2) with (Z.pos m1 ?= Z.pos m2).
    pose proof (pow2_pos (e2 + 1074) ltac:(lia)).
    destruct (Z.compare_spec (Z.pos m1) (Z.pos m2)) as [Heq|Hm|Hm]; symmetry.
    + rewrite Heq. apply Z.compare_refl.
    + apply Z.compare_lt_iff. nia.
    + apply Z.compare_gt_iff. nia.
  - symmetry. apply Z.compare_lt_iff. apply Hlt; first [lia|apply Hn2; lia].
  - symmetry. apply Z.compare_gt_iff. apply Hlt; first [lia|apply Hn1; lia].
Qed.

Lemma SFleb_units_finite (sx sy : bool) (mx my : positive) (ex ey : Z) :
  bounded prec emax mx ex = true → bounded prec emax my ey = true →
  SFleb (S754_finite sx mx ex) (S754_finite sy my ey) = true
  ↔ units (S754_finite sx mx ex) ≤ units (S754_finite sy my ey).
Proof.
  intros Hx Hy.
  pose proof (finite_units_bounds _ _ Hx). pose proof (finite_units_bounds _ _ Hy).
  pose proof (finite_compare _ _ _ _ Hx Hy) as Hcmp.
  assert (match (match ex ?= ey with
                 | Lt => Lt | Gt => Gt | Eq => Pos.compare_cont Eq mx my
                 end) with
          | Lt => Z.pos mx * 2 ^ (ex + 1074) < Z.pos my * 2 ^ (ey + 1074)
          | Eq => Z.pos mx * 2 ^ (ex + 1074) = Z.pos my * 2 ^ (ey + 1074)
          | Gt => Z.pos my * 2 ^ (ey + 1074) < Z.pos mx * 2 ^ (ex + 1074)
          end) as Hc.
  { rewrite Hcmp.
    destruct (Z.compare_spec (Z.pos mx * 2 ^ (ex + 1074))
                (Z.pos my * 2 ^ (ey + 1074))); lia. }
  clear Hcmp. unfold SFleb, SFcompare, units.
  destruct (ex ?= ey); try destruct (Pos.compare_cont Eq mx my);
    destruct sx, sy; simpl in *; split; (done || lia).
Qed.

Lemma SFleb_units (x y : spec_float) :
  valid_binary prec emax x = true → valid_binary prec emax y = true →
  x ≠ S754_nan → y ≠ S754_nan →
  SFleb x y = true ↔ units x ≤ units y.
Proof.
  intros Hx Hy Hnx Hny.
  destruct x as [sx|sx| |sx mx ex], y as [sy|sy| |sy my ey]; try done.
  all: try (by apply SFleb_units_finite).
  all: try pose proof (finite_units_bounds _ _ Hx).
  all: try pose proof (finite_units_bounds _ _ Hy).
  all: unfold SFleb, SFcompare, units; try destruct sx; try destruct sy; simpl in *;
    split; (done || lia).
Qed.

Lemma pack_units (s : bool) (M k : Z) :
  0 < M ≤ 2 ^ 53 → (emin < k → 2 ^ 52 ≤ M) → emin ≤ k →
  valid_binary prec emax (pack s M k) = true
  ∧ pack s M k ≠ S754_nan
  ∧ units (pack s M k) = cond_Zopp s (Z.min (M * 2 ^ (k + 1074)) (2 ^ 2098)).
Proof.
  intros HM Hnorm Hk. unfold pack.
  pose proof (pow2_pos (k + 1074) ltac:(lia)) as Hpow.
  destruct (Z.eqb_spec M (2 ^ 53)) as [->|HMne].
  - destruct (Z.leb_spec (k + 1) 971) as [Hle|Hgt]; split_and!; try done.
    + unfold valid_binary, bounded, canonical_mantissa.
      apply andb_true_iff. split; [|by apply Z.leb_le].
      apply Z.eqb_eq. rewrite fexp_eq.
      change (Z.pos (digits2_pos (Z.to_pos (2 ^ 52)))) with 53. lia.
    + simpl units. f_equal. change (Z.pos (Z.to_pos (2 ^ 52))) with (2 ^ 52).
      replace (k + 1 + 1074) with (k + 1074 + 1) by lia.
      rewrite pow2_split by lia. change (2 ^ 1) with 2.
      assert (2 ^ (k + 1074) ≤ 2 ^ 2044) by (apply Z.pow_le_mono_r; lia).
      change (2 ^ 2098) with (2 ^ 53 * 2 ^ 2044 * 2).
      change (2 ^ 53) with (2 ^ 52 * 2). nia.
    + simpl units. f_equal.
      assert (2 ^ 2045 ≤ 2 ^ (k + 1074)) by (apply Z.pow_le_mono_r; lia).
      change (2 ^ 2098) with (2 ^ 53 * 2 ^ 2045) at 1.
      change (2 ^ 2098) with (2 ^ 53 * 2 ^ 2045) at 1. nia.
  - assert (M < 2 ^ 53) as HMlt by lia.
    destruct (Z.leb_spec k 971) as [Hle|Hgt]; split_and!; try done.
    + unfold valid_binary, bounded, canonical_mantissa.
      apply andb_true_iff. split; [|by apply Z.leb_le].
      apply Z.eqb_eq. rewrite fexp_eq.
      pose proof (Zdigits2_bounds M ltac:(lia)) as Hd.
      pose proof (Zdigits2_pos M ltac:(lia)) as Hdpos.
      replace (Z.pos (digits2_pos (Z.to_pos M))) with (Zdigits2 M)
        by (destruct M; (done || lia)).
      set (d := Zdigits2 M) in *.
      assert (d ≤ 53).
      { destruct (decide (d ≤ 53)) as [|Hgt]; [done|].
        assert (2 ^ 53 ≤ 2 ^ (d - 1)) by (apply Z.pow_le_mono_r; lia). lia. }
      destruct (decide (k = emin)) as [->|Hne]; [lia|].
      assert (53 ≤ d); [|lia].
      destruct (decide (53 ≤ d)) as [|Hlt]; [done|].
      assert (2 ^ d ≤ 2 ^ 52) by (apply Z.pow_le_mono_r; lia).
      specialize (Hnorm ltac:(lia)). lia.
    + simpl units. f_equal. rewrite Z2Pos.id by lia.
      assert (2 ^ (k + 1074) ≤ 2 ^ 2045) by (apply Z.pow_le_mono_r; lia).
      change (2 ^ 2098) with (2 ^ 53 * 2 ^ 2045). nia.
    + simpl units. f_equal.
      assert (2 ^ 2046 ≤ 2 ^ (k + 1074)) by (apply Z.pow_le_mono_r; lia).
      specialize (Hnorm ltac:(lia)).
      change (2 ^ 2098) with (2 ^ 52 * 2 ^ 2046) at 1.
      change (2 ^ 2098) with (2 ^ 52 * 2 ^ 2046) at 1. nia.
Qed.

Lemma rnd_nonneg (a c : Z) : 0 ≤ a → 0 < c → 0 ≤ rnd a c.
Proof.
  intros Ha Hc. unfold rnd.
  set (n := Z.max _ 0). pose proof (pow2_pos n ltac:(lia)).
  pose proof (half_even_div_nonneg a (c * 2 ^ n) ltac:(nia) Ha). nia.
Qed.

Lemma log2_div_lt (a c : Z) :
  0 ≤ a → 0 < c → a < c * 2 ^ (Z.log2 (a / c) + 1).
Proof.
  intros Ha Hc. pose proof (Z.div_pos a c Ha Hc) as Hq.
  assert (a / c < 2 ^ (Z.log2 (a / c) + 1)) as Hlt.
  { destruct (decide (a / c = 0)) as [->|Hne]; [done|].
    pose proof (Z.log2_spec (a / c) ltac:(lia)) as [_ H]. by rewrite Z.add_1_r. }
  pose proof (Z.mul_succ_div_gt a c Hc). nia.
Qed.

Lemma rnd_mono (a1 a2 c : Z) :
  0 ≤ a1 → a1 ≤ a2 → 0 < c → rnd a1 c ≤ rnd a2 c.
Proof.
  intros Ha1 Hle Hc. unfold rnd.
  pose proof (Z.div_le_mono a1 a2 c Hc Hle) as Hq.
  pose proof (Z.div_pos a1 c Ha1 Hc) as Hq1.
  pose proof (Z.log2_le_mono _ _ Hq) as Hlog.
  pose proof (Z.log2_nonneg (a1 / c)) as Hl1.
  set (n1 := Z.max (Z.log2 (a1 / c) + 1 - 53) 0).
  set (n2 := Z.max (Z.log2 (a2 / c) + 1 - 53) 0).
  pose proof (pow2_pos n1 ltac:(lia)) as Hp1.
  pose proof (pow2_pos n2 ltac:(lia)) as Hp2.
  destruct (decide (n1 = n2)) as [Heq|Hne].
  - rewrite Heq.
    pose proof (half_even_div_mono a1 a2 (c * 2 ^ n2) ltac:(nia) Hle). nia.
  - assert (n1 < n2) as Hlt by lia.
    (* the smaller one rounds to at most [2 ^ (n1 + 53)] *)
    assert (half_even_div a1 (c * 2 ^ n1) ≤ 2 ^ 53) as Hup.
    { rewrite <- (half_even_div_exact (2 ^ 53) (c * 2 ^ n1)) by nia.
      apply half_even_div_mono; [nia|].
      pose proof (log2_div_lt a1 c Ha1 Hc) as Hb.
      assert (2 ^ (Z.log2 (a1 / c) + 1) ≤ 2 ^ (n1 + 53)) as Hpw
        by (apply Z.pow_le_mono_r; lia).
      apply (Z.mul_le_mono_nonneg_l _ _ c) in Hpw; [|lia].
      rewrite (pow2_split n1 53) in Hpw by lia. lia. }
    (* the larger one to at least [2 ^ (n2 + 52)] *)
    assert (2 ^ 52 ≤ half_even_div a2 (c * 2 ^ n2)) as Hlo.
    { rewrite <- (half_even_div_exact (2 ^ 52) (c * 2 ^ n2)) by nia.
      apply half_even_div_mono; [nia|].
      assert (0 < a2 / c) as Hq2.
      { destruct (decide (a2 / c = 0)) as [H0|H0]; [|lia].
        assert (n2 = 0) by (unfold n2; by rewrite H0). lia. }
      pose proof (Z.log2_spec (a2 / c) Hq2) as [Hb _].
      assert (Z.log2 (a2 / c) = n2 + 52) as Hl2 by lia.
      rewrite Hl2 in Hb. rewrite (pow2_split n2 52) in Hb by lia.
      pose proof (Z.mul_div_le a2 c Hc) as Hdiv.
      apply (Z.mul_le_mono_nonneg_l _ _ c) in Hb; [|lia]. lia. }
    set (h1 := half_even_div a1 (c * 2 ^ n1)) in *.
    set (h2 := half_even_div a2 (c * 2 ^ n2)) in *.
    assert (2 ^ n2 = 2 ^ n1 * 2 ^ (n2 - n1 - 1) * 2) as ->.
    { transitivity (2 ^ (n1 + (n2 - n1 - 1) + 1)); [f_equal; lia|].
      by rewrite (pow2_split _ 1), (pow2_split n1) by lia. }
    pose proof (pow2_pos (n2 - n1 - 1) ltac:(lia)) as Hp3.
    change (2 ^ 53) with (2 ^ 52 * 2) in Hup.
    set (P := 2 ^ n1) in *. set (Q := 2 ^ (n2 - n1 - 1)) in *.
    assert (h1 * P ≤ 2 ^ 52 * 2 * P) by nia.
    assert (2 ^ 52 * (P * Q * 2) ≤ h2 * (P * Q * 2)) by nia.
    assert (2 ^ 52 * 2 * P * 1 ≤ 2 ^ 52 * 2 * P * Q)
      by (apply Z.mul_le_mono_nonneg_l; lia).
    lia.
Qed.

Lemma srnd_mono (v1 v2 c : Z) : 0 < c → v1 ≤ v2 → srnd v1 c ≤ srnd v2 c.
Proof.
  intros Hc Hle. unfold srnd.
  pose proof (rnd_nonneg (Z.abs v1) c ltac:(lia) Hc).
  pose proof (rnd_nonneg (Z.abs v2) c ltac:(lia) Hc).
  assert (0 < 2 ^ 2098) as HB by done.
  set (B := 2 ^ 2098) in *.
  destruct (Z.sgn_spec v1) as [[? ->]|[[? ->]|[? ->]]],
           (Z.sgn_spec v2) as [[? ->]|[[? ->]|[? ->]]]; try lia.
  - pose proof (rnd_mono (Z.abs v1) (Z.abs v2) c ltac:(lia) ltac:(lia) Hc). lia.
  - pose proof (rnd_mono (Z.abs v2) (Z.abs v1) c ltac:(lia) ltac:(lia) Hc). lia.
Qed.

Lemma srnd_bounds (v c : Z) : 0 < c → - 2 ^ 2098 ≤ srnd v c ≤ 2 ^ 2098.
Proof.
  intros Hc. unfold srnd.
  pose proof (rnd_nonneg (Z.abs v) c ltac:(lia) Hc).
  assert (0 < 2 ^ 2098) as HB by done.
  set (B := 2 ^ 2098) in *.
  destruct (Z.sgn_spec v) as [[? ->]|[[? ->]|[? ->]]]; lia.
Qed.

Lemma srnd_0 (c : Z) : srnd 0 c = 0.
Proof. done. Qed.

Lemma log2_scaled (a c j : Z) :
  0 < c → 0 < a / c → 0 ≤ j →
  Z.log2 (a * 2 ^ j / c) = Z.log2 (a / c) + j.
Proof.
  intros Hc Hq Hj. pose proof (pow2_pos j Hj) as Hp.
  pose proof (Z.log2_spec (a / c) Hq) as [Hlo Hhi].
  pose proof (Z.log2_nonneg (a / c)) as Hl.
  apply Z.log2_unique; [lia|].
  rewrite <- Z.add_succ_l. rewrite !(pow2_split _ j) by lia.
  pose proof (Z.mul_div_le a c Hc). pose proof (Z.mul_succ_div_gt a c Hc).
  rewrite <- Z.add_1_r in Hhi. rewrite (pow2_split _ 1) in Hhi by lia.
  change (2 ^ 1) with 2 in Hhi. rewrite <- Z.add_1_r in *.
  rewrite (pow2_split _ 1) by lia. change (2 ^ 1) with 2.
  set (X := 2 ^ Z.log2 (a / c)) in *. set (Y := 2 ^ j) in *. set (q := a / c) in *.
  assert (c * X ≤ a) by nia.
  assert (a < c * (X * 2)) by nia.
  split.
  - apply Z.div_le_lower_bound; [done|]. nia.
  - apply Z.div_lt_upper_bound; [done|]. nia.
Qed.

(** What [binary_round_aux] returns, by value. *)
Lemma binary_round_aux_units (s : bool) (m e : Z) (l : location) (a c : Z) :
  0 ≤ a → 0 < c → 0 < m →
  locates a c (shr_record_of_loc m l) →
  emin ≤ e → e ≤ fexp prec emax (Zdigits2 m + e) →
  let x := binary_round_aux prec emax s m e l in
  valid_binary prec emax x = true
  ∧ x ≠ S754_nan
  ∧ units x = cond_Zopp s (Z.min (rnd (a * 2 ^ (e + 1074)) c) (2 ^ 2098)).
Proof.
  intros Ha Hc Hm Hloc He Hshift x.
  destruct (binary_round_aux_spec s m e l a c Ha Hc Hm Hloc He Hshift)
    as (Hx & HM & Hnorm).
  set (k := fexp prec emax (Zdigits2 m + e)) in *.
  assert (emin ≤ k) as Hk by lia.
  destruct (pack_units s _ k HM Hnorm Hk) as (Hvalid & Hnan & Hunits).
  subst x. rewrite Hx. split_and!; [done..|]. rewrite Hunits. do 2 f_equal.
  assert (a / c = m) as Hq.
  { destruct Hloc as [Hq _]. by rewrite shr_m_of_loc in Hq. }
  unfold rnd. rewrite log2_scaled by lia. rewrite Hq.
  assert (Z.max (Z.log2 m + (e + 1074) + 1 - 53) 0 = k + 1074) as ->.
  { unfold k. rewrite fexp_eq, Zdigits2_log2 by done. lia. }
  f_equal.
  replace (k + 1074) with (k - e + (e + 1074)) by lia.
  rewrite (pow2_split (k - e) (e + 1074)) by lia. rewrite Z.mul_assoc.
  symmetry. apply half_even_div_scale; [|apply pow2_pos; lia].
  pose proof (pow2_pos (k - e) ltac:(lia)). nia.
Qed.

Lemma shl_align_spec (mx : positive) (ex ez : Z) :
  ez ≤ ex →
  Z.pos (shl_align mx ex ez).1 = Z.pos mx * 2 ^ (ex - ez)
  ∧ (shl_align mx ex ez).2 = ez.
Proof.
  intros Hle. unfold shl_align.
  destruct (ez - ex) as [|d|d] eqn:Hd; [|lia|]; simpl.
  - assert (ex = ez) as -> by lia. rewrite Z.sub_diag. simpl. lia.
  - split; [|done]. change (Pos.iter xO mx d) with (shift_pos d mx).
    rewrite shift_pos_correct.
    assert (ex - ez = Z.pos d) as -> by lia.
    change (Z.pow_pos 2 d) with (2 ^ Z.pos d). lia.
Qed.

Lemma Zdigits2_shift (m j : Z) :
  0 < m → 0 ≤ j → Zdigits2 (m * 2 ^ j) = Zdigits2 m + j.
Proof.
  intros Hm Hj. pose proof (pow2_pos j Hj).
  rewrite !Zdigits2_log2 by nia. rewrite Z.log2_mul_pow2 by lia. lia.
Qed.

Lemma locates_exact (m : Z) : locates m 1 (shr_record_of_loc m loc_Exact).
Proof.
  unfold locates. simpl. rewrite Z.div_1_r, Z.mod_1_r. done.
Qed.

Lemma binary_round_units (s : bool) (mx : positive) (ex : Z) :
  emin ≤ ex →
  let x := binary_round prec emax s mx ex in
  valid_binary prec emax x = true
  ∧ x ≠ S754_nan
  ∧ units x = cond_Zopp s (Z.min (rnd (Z.pos mx * 2 ^ (ex + 1074)) 1) (2 ^ 2098)).
Proof.
  intros He x. subst x. unfold binary_round.
  set (f := fexp prec emax (Z.pos (digits2_pos mx) + ex)).
  assert (f = Z.max (Zdigits2 (Z.pos mx) + ex - 53) emin) as Hf by apply fexp_eq.
  destruct (shl_align mx ex f) as [mz ez] eqn:Halign.
  assert (Z.pos mz * 2 ^ (ez + 1074) = Z.pos mx * 2 ^ (ex + 1074)
          ∧ emin ≤ ez
          ∧ ez ≤ fexp prec emax (Zdigits2 (Z.pos mz) + ez)) as (Hval & Hez & Hshift).
  { destruct (Z.le_gt_cases f ex) as [Hle|Hgt].
    - destruct (shl_align_spec mx ex f Hle) as [Hm He'].
      rewrite Halign in Hm, He'. simpl in Hm, He'. subst ez. rewrite Hm.
      split_and!; [|lia|].
      + rewrite <- Z.mul_assoc, <- pow2_split by lia. do 2 f_equal. lia.
      + rewrite Zdigits2_shift by lia. rewrite fexp_eq. lia.
    - assert (shl_align mx ex f = (mx, ex)) as Hno.
      { unfold shl_align. destruct (f - ex) eqn:Hd; (done || lia). }
      rewrite Hno in Halign. injection Halign as <- <-.
      split_and!; [done..|]. change (ex ≤ f). lia. }
  destruct (binary_round_aux_units s (Z.pos mz) ez loc_Exact (Z.pos mz) 1)
    as (Hvalid & Hnan & Hunits); try done; [apply locates_exact|].
  split_and!; [done..|]. by rewrite Hunits, Hval.
Qed.

Lemma binary_normalize_units (z e : Z) (szero : bool) :
  emin ≤ e →
  let x := binary_normalize prec emax z e szero in
  valid_binary prec emax x = true
  ∧ x ≠ S754_nan
  ∧ units x = srnd (z * 2 ^ (e + 1074)) 1.
Proof.
  intros He x. subst x. pose proof (pow2_pos (e + 1074) ltac:(lia)) as Hp.
  destruct z as [|p|p]; simpl binary_normalize.
  - done.
  - destruct (binary_round_units false p e He) as (Hv & Hn & Hu).
    split_and!; [done..|]. rewrite Hu. unfold srnd.
    rewrite Z.sgn_pos, Z.abs_eq by lia. simpl. lia.
  - destruct (binary_round_units true p e He) as (Hv & Hn & Hu).
    split_and!; [done..|]. rewrite Hu. unfold srnd.
    rewrite Z.sgn_neg, Z.abs_neq by lia. simpl.
    replace (- (Z.neg p * 2 ^ (e + 1074))) with (Z.pos p * 2 ^ (e + 1074)) by lia.
    lia.
Qed.

Lemma srnd_representable (s : bool) (m : positive) (e : Z) :
  bounded prec emax m e = true →
  srnd (cond_Zopp s (Z.pos m * 2 ^ (e + 1074))) 1
  = cond_Zopp s (Z.pos m * 2 ^ (e + 1074)).
Proof.
  intros Hb. pose proof (finite_units_bounds m e Hb) as Hu.
  destruct (valid_finite m e Hb) as (He & Hm & Hnorm).
  pose proof (pow2_pos (e + 1074) ltac:(lia)) as Hp.
  assert (rnd (Z.pos m * 2 ^ (e + 1074)) 1 = Z.pos m * 2 ^ (e + 1074)) as Hrnd.
  { unfold rnd. rewrite Z.div_1_r, Z.log2_mul_pow2 by lia.
    assert (Z.max (e + 1074 + Z.log2 (Z.pos m) + 1 - 53) 0 = e + 1074) as ->.
    { pose proof (Z.log2_nonneg (Z.pos m)).
      assert (Z.log2 (Z.pos m) < 53) by (apply Z.log2_lt_pow2; lia).
      destruct (decide (e = emin)) as [->|Hne]; [lia|].
      assert (52 ≤ Z.log2 (Z.pos m)); [|lia].
      apply Z.log2_le_pow2; [lia|]. apply Hnorm. lia. }
    rewrite Z.mul_1_l, half_even_div_exact by done. done. }
  unfold srnd. destruct s; simpl cond_Zopp.
  - rewrite Z.sgn_neg, Z.abs_neq by lia.
    replace (- - (Z.pos m * 2 ^ (e + 1074))) with (Z.pos m * 2 ^ (e + 1074)) by lia.
    rewrite Hrnd. lia.
  - rewrite Z.sgn_pos, Z.abs_eq by lia. rewrite Hrnd. lia.
Qed.

Lemma SFsub_units (x y : spec_float) :
  valid_binary prec emax x = true → valid_binary prec emax y = true →
  is_finite_SF x = true → is_finite_SF y = true →
  valid_binary prec emax (SFsub prec emax x y) = true
  ∧ SFsub prec emax x y ≠ S754_nan
  ∧ units (SFsub prec emax x y) = srnd (units x - units y) 1.
Proof.
  intros Hx Hy Hfx Hfy.
  destruct x as [sx|sx| |sx mx ex], y as [sy|sy| |sy my ey]; try done.
  - by destruct sx, sy.
  - split_and!; [done..|]. simpl in Hy. simpl SFsub. simpl units.
    rewrite <- (srnd_representable (negb sy) my ey Hy). f_equal.
    destruct sy; simpl; lia.
  - split_and!; [done..|]. simpl in Hx. simpl SFsub. simpl units.
    rewrite Z.sub_0_r. symmetry. by apply srnd_representable.
  - simpl in Hx, Hy.
    destruct (valid_finite mx ex Hx) as (Hex & _).
    destruct (valid_finite my ey Hy) as (Hey & _).
    cbn [SFsub]. set (ez := Z.min ex ey).
    destruct (binary_normalize_units
                (cond_Zopp sx (Z.pos (shl_align mx ex ez).1)
                 - cond_Zopp sy (Z.pos (shl_align my ey ez).1)) ez false ltac:(lia))
      as (Hv & Hn & Hu).
    split_and!; [done..|]. rewrite Hu. f_equal.
    destruct (shl_align_spec mx ex ez ltac:(lia)) as [-> _].
    destruct (shl_align_spec my ey ez ltac:(lia)) as [-> _].
    cbn [units].
    assert (Z.pos mx * 2 ^ (ex - ez) * 2 ^ (ez + 1074) = Z.pos mx * 2 ^ (ex + 1074)) as Hmx.
    { rewrite <- Z.mul_assoc, <- pow2_split by lia. do 2 f_equal. lia. }
    assert (Z.pos my * 2 ^ (ey - ez) * 2 ^ (ez + 1074) = Z.pos my * 2 ^ (ey + 1074)) as Hmy.
    { rewrite <- Z.mul_assoc, <- pow2_split by lia. do 2 f_equal. lia. }
    destruct sx, sy; simpl cond_Zopp; lia.
Qed.

(** Subtraction from a finite number turns the order around. *)
Lemma SFsub_antitone (h a b : spec_float) :
  valid_binary prec emax h = true → valid_binary prec emax a = true →
  valid_binary prec emax b = true →
  is_finite_SF h = true →
  SFleb a b = true →
  SFleb (SFsub prec emax h b) (SFsub prec emax h a) = true.
Proof.
  intros Hh Ha Hb Hfh Hle.
  assert (a ≠ S754_nan ∧ b ≠ S754_nan) as [Hna Hnb].
  { split; intros ->; [done|by destruct a]. }
  destruct (is_finite_SF a) eqn:Hfa, (is_finite_SF b) eqn:Hfb.
  - destruct (SFsub_units h a Hh Ha Hfh Hfa) as (Hva & Hnna & Hua).
    destruct (SFsub_units h b Hh Hb Hfh Hfb) as (Hvb & Hnnb & Hub).
    apply SFleb_units; [done..|]. rewrite Hua, Hub.
    apply srnd_mono; [done|]. apply SFleb_units in Hle; [lia|done..].
  - (* [b] is an infinity *)
    destruct b as [|[]| |]; try done.
    + destruct a as [|[]| |]; done.
    + destruct (SFsub_units h a Hh Ha Hfh Hfa) as (Hva & Hnna & Hua).
      assert (SFsub prec emax h (S754_infinity false) = S754_infinity true) as ->
        by (by destruct h as [| | |]).
      destruct (SFsub prec emax h a) as [|[]| |[]]; done.
  - (* [a] is an infinity *)
    destruct a as [|[]| |]; try done.
    + destruct (SFsub_units h b Hh Hb Hfh Hfb) as (Hvb & Hnnb & Hub).
      assert (SFsub prec emax h (S754_infinity true) = S754_infinity false) as ->
        by (by destruct h as [| | |]).
      destruct (SFsub prec emax h b) as [|[]| |[]]; done.
    + destruct b as [|[]| |]; done.
  - destruct a as [|[]| |], b as [|[]| |]; try done; by destruct h.
Qed.

Lemma odd_extension_mono (g : Z → Z) (v1 v2 : Z) :
  (∀ a, 0 ≤ a → 0 ≤ g a) → (∀ a b, 0 ≤ a → a ≤ b → g a ≤ g b) →
  v1 ≤ v2 → Z.sgn v1 * g (Z.abs v1) ≤ Z.sgn v2 * g (Z.abs v2).
Proof.
  intros Hpos Hmono Hle.
  pose proof (Hpos (Z.abs v1) ltac:(lia)). pose proof (Hpos (Z.abs v2) ltac:(lia)).
  destruct (Z.sgn_spec v1) as [[? ->]|[[? ->]|[? ->]]],
           (Z.sgn_spec v2) as [[? ->]|[[? ->]|[? ->]]]; try lia.
  - pose proof (Hmono (Z.abs v1) (Z.abs v2) ltac:(lia) ltac:(lia)). lia.
  - pose proof (Hmono (Z.abs v2) (Z.abs v1) ltac:(lia) ltac:(lia)). lia.
Qed.

Lemma R2_mono (v1 v2 : Z) : v1 ≤ v2 → R2 v1 ≤ R2 v2.
Proof.
  assert (0 < 2 ^ 1074) as Hp by done. assert (0 < 2 ^ 2098) as HB by done.
  unfold R2. set (P := 2 ^ 1074) in *. set (B := 2 ^ 2098) in *.
  apply (odd_extension_mono
           (λ a, Z.min (rnd (half_even_div (100 * a) P * P) 100) B)).
  - intros a Ha.
    pose proof (half_even_div_nonneg (100 * a) P Hp ltac:(lia)).
    pose proof (rnd_nonneg (half_even_div (100 * a) P * P) 100 ltac:(nia) ltac:(lia)).
    lia.
  - intros a b Ha Hab.
    pose proof (half_even_div_nonneg (100 * a) P Hp ltac:(lia)).
    pose proof (half_even_div_mono (100 * a) (100 * b) P Hp ltac:(lia)).
    pose proof (rnd_mono (half_even_div (100 * a) P * P)
                  (half_even_div (100 * b) P * P) 100 ltac:(nia) ltac:(nia) ltac:(lia)).
    lia.
Qed.

Lemma R2_bounds (v : Z) : - 2 ^ 2098 ≤ R2 v ≤ 2 ^ 2098.
Proof.
  assert (0 < 2 ^ 1074) as Hp by done. assert (0 < 2 ^ 2098) as HB by done.
  unfold R2. set (P := 2 ^ 1074) in *. set (B := 2 ^ 2098) in *.
  pose proof (half_even_div_nonneg (100 * Z.abs v) P Hp ltac:(lia)).
  pose proof (rnd_nonneg (half_even_div (100 * Z.abs v) P * P) 100
                ltac:(nia) ltac:(lia)).
  destruct (Z.sgn_spec v) as [[? ->]|[[? ->]|[? ->]]]; lia.
Qed.

Lemma hundredths_units (m : positive) (e : Z) :
  emin ≤ e →
  hundredths m e = half_even_div (100 * (Z.pos m * 2 ^ (e + 1074))) (2 ^ 1074).
Proof.
  intros He. unfold hundredths. destruct (Z.leb_spec 0 e) as [Hpos|Hneg].
  - rewrite (pow2_split e 1074) by lia.
    replace (100 * (Z.pos m * (2 ^ e * 2 ^ 1074)))
      with (100 * Z.pos m * 2 ^ e * 2 ^ 1074) by lia.
    by rewrite half_even_div_exact.
  - rewrite <- (half_even_div_scale (100 * Z.pos m) (2 ^ (- e)) (2 ^ (e + 1074)))
      by (apply pow2_pos; lia).
    rewrite <- pow2_split by lia. replace (- e + (e + 1074)) with 1074 by lia.
    f_equal. lia.
Qed.

Lemma new_location_100 (a : Z) :
  0 ≤ a →
  locates a 100 (shr_record_of_loc (a / 100) (new_location 100 (a mod 100))).
Proof.
  intros Ha. pose proof (Z.mod_pos_bound a 100 ltac:(lia)) as Hrem.
  unfold locates. rewrite shr_m_of_loc. split; [done|].
  change (new_location 100 (a mod 100))
    with (if a mod 100 =? 0 then loc_Exact
          else loc_Inexact (2 * (a mod 100) ?= 100)).
  destruct (Z.eqb_spec (a mod 100) 0) as [H0|H0].
  - rewrite H0. done.
  - destruct (Z.compare_spec (2 * (a mod 100)) 100) as [Heq|Hlt|Hgt]; simpl.
    + rewrite Heq. done.
    + split; [symmetry; apply Z.leb_gt; lia|].
      rewrite Z.mod_small by lia. symmetry. apply negb_true_iff, Z.eqb_neq. lia.
    + split; [symmetry; apply Z.leb_le; lia|].
      replace (2 * (a mod 100)) with (2 * (a mod 100) - 100 + 1 * 100) by lia.
      rewrite Z.mod_add, Z.mod_small by lia.
      symmetry. apply negb_true_iff, Z.eqb_neq. lia.
Qed.

Lemma SF_round2_units (s : bool) (m : positive) (e : Z) :
  bounded prec emax m e = true →
  valid_binary prec emax (SF_round2 s m e) = true
  ∧ SF_round2 s m e ≠ S754_nan
  ∧ units (SF_round2 s m e) = R2 (cond_Zopp s (Z.pos m * 2 ^ (e + 1074))).
Proof.
  intros Hb. pose proof (finite_units_bounds m e Hb) as Hu.
  destruct (valid_finite m e Hb) as (He & _).
  assert (R2 (cond_Zopp s (Z.pos m * 2 ^ (e + 1074)))
          = cond_Zopp s (Z.min (rnd (hundredths m e * 2 ^ 1074) 100) (2 ^ 2098)))
    as ->.
  { rewrite hundredths_units by lia. unfold R2. destruct s; simpl cond_Zopp.
    - rewrite Z.sgn_neg, Z.abs_neq by lia.
      replace (- - (Z.pos m * 2 ^ (e + 1074))) with (Z.pos m * 2 ^ (e + 1074)) by lia.
      lia.
    - rewrite Z.sgn_pos, Z.abs_eq by lia. lia. }
  assert (0 ≤ hundredths m e) as Hr.
  { rewrite hundredths_units by lia. apply half_even_div_nonneg; [done|lia]. }
  unfold SF_round2. set (r := hundredths m e) in *.
  destruct (Z.eqb_spec r 0) as [->|Hr0].
  { split_and!; [done..|]. by destruct s. }
  (* the quotient of [r] by [100] *)
  unfold SFdiv_core_binary.
  change (Zdigits2 100) with 7.
  set (d := Zdigits2 r).
  pose proof (Zdigits2_bounds r ltac:(lia)) as Hd. fold d in Hd.
  pose proof (Zdigits2_pos r ltac:(lia)) as Hdpos. fold d in Hdpos.
  set (e' := Z.min (fexp prec emax (d + 0 - (7 + 0))) (0 - 0)).
  assert (e' = Z.min (Z.max (d - 60) emin) 0) as He'.
  { unfold e'. rewrite fexp_eq. lia. }
  set (m' := match 0 - 0 - e' with
             | Z.pos _ => Z.shiftl r (0 - 0 - e')
             | 0 => r
             | Z.neg _ => 0
             end).
  assert (m' = r * 2 ^ (- e')) as Hm'.
  { unfold m'. destruct (0 - 0 - e') as [|p|p] eqn:Hs; [|..|lia].
    - replace (- e') with 0 by lia. lia.
    - rewrite Z.shiftl_mul_pow2 by lia. do 2 f_equal. lia. }
  assert (2 ^ 59 ≤ m') as Hbig.
  { rewrite Hm'. destruct (Z.le_gt_cases 60 d) as [Hge|Hlt].
    - replace (- e') with 0 by lia. rewrite Z.pow_0_r.
      assert (2 ^ 59 ≤ 2 ^ (d - 1)) by (apply Z.pow_le_mono_r; lia). lia.
    - replace (- e') with (60 - d) by lia.
      destruct Hd as [Hd _].
      apply (Z.mul_le_mono_nonneg_r _ _ (2 ^ (60 - d))) in Hd;
        [|apply Z.lt_le_incl, pow2_pos; lia].
      rewrite <- pow2_split in Hd by lia.
      by replace (d - 1 + (60 - d)) with 59 in Hd by lia. }
  clearbody m'.
  assert (Z.div_eucl m' 100 = (m' / 100, m' mod 100)) as ->.
  { unfold Z.div, Z.modulo. by destruct (Z.div_eucl m' 100). }
  assert (2 ^ 52 ≤ m' / 100) as Hq.
  { apply Z.div_le_lower_bound; [lia|]. etrans; [|exact Hbig]. done. }
  pose proof (Zdigits2_bounds (m' / 100) ltac:(lia)) as Hdq.
  assert (53 ≤ Zdigits2 (m' / 100)) as Hdq53.
  { destruct (Z.le_gt_cases 53 (Zdigits2 (m' / 100))) as [|Hlt]; [done|].
    assert (2 ^ Zdigits2 (m' / 100) ≤ 2 ^ 52).
    { apply Z.pow_le_mono_r; lia. }
    lia. }
  destruct (binary_round_aux_units s (m' / 100) e' (new_location 100 (m' mod 100))
              m' 100) as (Hv & Hn & Hunits).
  - lia.
  - lia.
  - lia.
  - apply new_location_100. lia.
  - lia.
  - rewrite fexp_eq. lia.
  - split_and!; [done..|]. rewrite Hunits. do 3 f_equal.
    rewrite Hm', <- Z.mul_assoc, <- pow2_split by lia. do 2 f_equal. lia.
Qed.

Lemma SF_round_units (x : spec_float) :
  valid_binary prec emax x = true → x ≠ S754_nan →
  valid_binary prec emax (SF_round x) = true
  ∧ SF_round x ≠ S754_nan
  ∧ units (SF_round x) = if is_finite_SF x then R2 (units x) else units x.
Proof.
  intros Hx Hn. destruct x as [s|s| |s m e]; try done.
  by apply SF_round2_units.
Qed.

Lemma finite_SF_units (x : spec_float) :
  valid_binary prec emax x = true → is_finite_SF x = true →
  - 2 ^ 2098 < units x < 2 ^ 2098.
Proof.
  intros Hx Hf. destruct x as [s|s| |s m e]; try done.
  pose proof (finite_units_bounds m e Hx). unfold units.
  destruct s; simpl cond_Zopp; lia.
Qed.

Lemma infinite_SF_units (x : spec_float) :
  x ≠ S754_nan → is_finite_SF x = false →
  units x = - 2 ^ 2098 ∨ units x = 2 ^ 2098.
Proof.
  intros Hn Hf. destruct x as [s|[]| |s m e]; try done; [by left|by right].
Qed.

(** Rounding to two places keeps the order. *)
Lemma SF_round_mono (a b : spec_float) :
  valid_binary prec emax a = true → valid_binary prec emax b = true →
  SFleb a b = true → SFleb (SF_round a) (SF_round b) = true.
Proof.
  intros Ha Hb Hle.
  assert (a ≠ S754_nan ∧ b ≠ S754_nan) as [Hna Hnb].
  { split; intros ->; [done|by destruct a]. }
  destruct (SF_round_units a Ha Hna) as (Hva & Hnna & Hua).
  destruct (SF_round_units b Hb Hnb) as (Hvb & Hnnb & Hub).
  apply SFleb_units; [done..|]. apply SFleb_units in Hle; [|done..].
  rewrite Hua, Hub.
  pose proof (R2_bounds (units a)). pose proof (R2_bounds (units b)).
  pose proof (R2_mono _ _ Hle).
  destruct (is_finite_SF a) eqn:Hfa, (is_finite_SF b) eqn:Hfb.
  - done.
  - pose proof (finite_SF_units a Ha Hfa).
    destruct (infinite_SF_units b Hnb Hfb); lia.
  - pose proof (finite_SF_units b Hb Hfb).
    destruct (infinite_SF_units a Hna Hfa); lia.
  - done.
Qed.

Lemma Prim2SF_round2 (x : PrimFloat.float) :
  Prim2SF (b64_round2 x) = SF_round (Prim2SF x).
Proof.
  unfold b64_round2. pose proof (FloatAxioms.Prim2SF_valid x) as Hx.
  destruct (Prim2SF x) as [s|s| |s m e] eqn:Hsf; try done.
  apply FloatAxioms.Prim2SF_SF2Prim. by apply SF_round2_units.
Qed.

Lemma b64_round2_mono (a b : PrimFloat.float) :
  PrimFloat.leb a b = true →
  PrimFloat.leb (b64_round2 a) (b64_round2 b) = true.
Proof.
  rewrite !FloatAxioms.leb_spec, !Prim2SF_round2.
  apply SF_round_mono; apply FloatAxioms.Prim2SF_valid.
Qed.

Lemma is_finite_Prim2SF (x : PrimFloat.float) :
  PrimFloat.is_finite x = true → is_finite_SF (Prim2SF x) = true.
Proof.
  unfold PrimFloat.is_finite, Prim2SF.
  intros [Hnan Hinf]%negb_true_iff%orb_false_iff.
  rewrite Hnan, Hinf. destruct (PrimFloat.is_zero x); [done|].
  destruct (Z.frexp x) as [r e]. destruct (shr_fexp _ _ _ _ _) as [mrs e'].
  by destruct (shr_m mrs).
Qed.

Lemma b64_sub_antitone (h a b : PrimFloat.float) :
  PrimFloat.is_finite h = true →
  PrimFloat.leb a b = true →
  PrimFloat.leb (PrimFloat.sub h b) (PrimFloat.sub h a) = true.
Proof.
  intros Hh. rewrite !FloatAxioms.leb_spec, !FloatAxioms.sub_spec.
  apply SFsub_antitone; try apply FloatAxioms.Prim2SF_valid. by apply is_finite_Prim2SF.
Qed.

End Binary64Facts.

Lemma int_of_str_of_nat (n : nat) : int_of_str (str_of_nat n) = Some n.
Proof.
  unfold int_of_str, str_of_nat.
  rewrite String.string_of_list_ascii_of_string, NilEmpty.usu. simpl.
  by rewrite DecimalNat.Unsigned.of_to.
Qed.

Lemma str_of_nat_inj : Inj (=) (=) str_of_nat.
Proof.
  intros n m Heq. apply (f_equal int_of_str) in Heq.
  rewrite !int_of_str_of_nat in Heq. by injection Heq.
Qed.

Section Pages.

Context {F : PyFloat}.

Lemma same_but_stdout_refl w : same_but_stdout w w.
Proof. split_and!; try done. exists []. by rewrite (right_id_L [] (++)). Qed.

Lemma same_but_stdout_trans w1 w2 w3 :
  same_but_stdout w1 w2 → same_but_stdout w2 w3 → same_but_stdout w1 w3.
Proof.
  intros (? & ? & ? & ? & ? & l1 & ?) (? & ? & ? & ? & ? & l2 & ?).
  split_and!; try congruence. exists (l1 ++ l2). rewrite (assoc_L (++)). congruence.
Qed.

Lemma print_same line w : same_but_stdout w (print line w).2.
Proof. split_and!; try done. by exists [line]. Qed.

Lemma page_body_cases (doc : Doc) (page_num : nat) (jd : gmap str PageRec) (w : World) :
  same_but_stdout w (page_body doc page_num jd w).2
  ∧ match doc_pages doc !! page_num with
    | Some (Page h wd ws) =>
        (page_body doc page_num jd w).1
        = Ret (<[str_of_nat (page_num + 1) := page_record page_num h wd ws]> jd)
    | Some (BrokenPage err) =>
        page_body doc page_num jd w = (Raise (RuntimeError err), w)
    | None => ∃ e, page_body doc page_num jd w = (Raise e, w)
    end.
Proof.
  unfold page_body, load_page, bind.
  destruct (doc_pages doc !! page_num) as [[h wd ws|err]|]; simpl.
  - split; [apply print_same|done].
  - split; [apply same_but_stdout_refl|done].
  - split; [apply same_but_stdout_refl|eauto].
Qed.

Lemma pages_loop_cases (doc : Doc) (n k : nat) (jd : gmap str PageRec) (w : World) :
  same_but_stdout w (for_each (seq k n) (page_body doc) jd w).2
  ∧ match (for_each (seq k n) (page_body doc) jd w).1 with
    | Ret jd' =>
        (∀ i, (k ≤ i < k + n)%nat →
           ∃ h wd ws, doc_pages doc !! i = Some (Page h wd ws)
                      ∧ jd' !! str_of_nat (i + 1) = Some (page_record i h wd ws))
        ∧ (∀ key, (∀ i, (k ≤ i < k + n)%nat → key ≠ str_of_nat (i + 1)) →
                  jd' !! key = jd !! key)
    | Raise e =>
        ∃ i, (k ≤ i < k + n)%nat
             ∧ ∀ h wd ws, doc_pages doc !! i ≠ Some (Page h wd ws)
    end.
Proof.
  revert k jd w. induction n as [|n IH]; intros k jd w; simpl.
  - split; [apply same_but_stdout_refl|]. split; [lia|done].
  - unfold bind at 1 2.
    destruct (page_body_cases doc k jd w) as [Hsame Hres].
    destruct (page_body doc k jd w) as [[jd1|e] w1] eqn:Hbody; simpl in *.
    + destruct (IH (S k) jd1 w1) as [Hsame' Hres'].
      split; [by eapply same_but_stdout_trans|].
      destruct (doc_pages doc !! k) as [[h wd ws|err]|] eqn:Hk;
        [|done|by destruct Hres].
      injection Hres as ->.
      destruct (for_each _ _ _ _) as [[jd'|e] w'] eqn:Hloop; simpl in *.
      * destruct Hres' as [Hin Hout]. split.
        -- intros i Hi. destruct (decide (i = k)) as [->|Hne].
           ++ exists h, wd, ws. split; [done|].
              rewrite Hout, lookup_insert_eq; [done|].
              intros j Hj Heq. apply str_of_nat_inj in Heq. lia.
           ++ apply Hin. lia.
        -- intros key Hkey. rewrite Hout.
           ++ apply lookup_insert_ne. intros Heq. by apply (Hkey k); [lia|].
           ++ intros i Hi. apply Hkey. lia.
      * destruct Hres' as (i & Hi & Hbad). exists i. split; [lia|done].
    + split; [done|]. exists k. split; [lia|].
      intros h wd ws Hk. rewrite Hk in Hres. congruence.
Qed.

End Pages.

Section Run.

Context {F : PyFloat}.

Lemma remove_first_head (x : str) (l : list str) : remove_first x (x :: l) = l.
Proof. simpl. by rewrite decide_True. Qed.

Lemma cleanup_run (pdf_path out : str) (e : Exn) (w : World) :
  out ≠ [] →
  cleanup pdf_path out e w
  = (Ret None,
     set_fs (remove_file (refusal w out) out)
       (set_stdout (λ o, o ++ [lit "Error processing " ++ pdf_path ++ lit ": " ++ exn_msg e]) w)).
Proof.
  intros Hout. unfold cleanup, bind, print, path_exists, try_except_OSError, os_remove, ret.
  destruct out as [|c out]; [done|]. simpl. unfold remove_file, set_fs, set_stdout. simpl.
  destruct (fs w !! (c :: out)) as [[?|?]|] eqn:Hfs; simpl; rewrite ?Hfs; simpl;
    try destruct (refusal w (c :: out)) as [err|] eqn:Href; simpl.
  all: by rewrite ?Hfs.
Qed.

Lemma pages_of_pdf (w : World) (path : str) (pages : list PageSrc) :
  fs w !! path = Some (File (PdfDoc pages)) → pages_of w path = Some pages.
Proof. unfold pages_of. by intros ->. Qed.

(** What [fitz.open] does, by what it finds. *)
Lemma fitz_open_run (path : str) (w : World) :
  match pages_of w path with
  | Some pages =>
      fitz_open path w
      = (Ret {| doc_name := path; doc_pages := pages |},
         set_live_docs (λ live, path :: live)
           (set_fitz_calls (λ calls, calls ++ [path]) w))
  | None =>
      ∃ e, fitz_open path w
           = (Raise e, set_fitz_calls (λ calls, calls ++ [path]) w)
  end.
Proof.
  unfold pages_of, fitz_open. simpl.
  destruct (fs w !! path) as [[[pages|jd0| |b]|names]|]; eauto.
  destruct path; eauto.
Qed.

Lemma forallb_is_page (pages : list PageSrc) :
  forallb is_page pages = true
  ↔ ∀ i, (i < length pages)%nat → ∃ h wd ws, pages !! i = Some (Page h wd ws).
Proof.
  rewrite forallb_forall. split.
  - intros H i Hi. destruct (lookup_lt_is_Some_2 pages i Hi) as [src Hsrc].
    assert (is_page src = true) as Hp.
    { apply H, list_elem_of_In, list_elem_of_lookup. eauto. }
    destruct src; [eauto|done].
  - intros H src Hsrc. apply list_elem_of_In, list_elem_of_lookup in Hsrc as [i Hi].
    destruct (H i) as (h & wd & ws & Hp); [by eapply lookup_lt_Some|].
    rewrite Hp in Hi. by injection Hi as <-.
Qed.

(** The four ways the [try] block ends. *)
Lemma extract_cases (pdf_path out : str) (w : World) :
  ∃ r w', extract pdf_path out w = (r, w')
    ∧ disk w' = disk w
    ∧ refusal w' = refusal w
    ∧ fitz_calls w' = fitz_calls w ++ [pdf_path]
    ∧ (∃ lines, stdout w' = stdout w ++ lines)
    ∧ match pages_of w pdf_path with
      | None => (∃ e, r = Raise e) ∧ fs w' = fs w ∧ live_docs w' = live_docs w
      | Some pages =>
          if forallb is_page pages then
            live_docs w' = live_docs w
            ∧ if writable w out then
                r = Ret (Some out)
                ∧ ∃ jd, json_of pages jd ∧ fs w' = <[out := File (JsonDoc jd)]> (fs w)
              else
                (∃ msg, r = Raise (OSError msg))
                ∧ fs w' = failed_dump w out
          else
            (∃ e, r = Raise e) ∧ fs w' = fs w
            ∧ live_docs w' = pdf_path :: live_docs w
      end.
Proof.
  unfold extract. unfold bind at 1. simpl. unfold bind at 1.
  match goal with |- context [fitz_open pdf_path ?w0] =>
    pose proof (fitz_open_run pdf_path w0) as Hopen;
    change (pages_of w0 pdf_path) with (pages_of w pdf_path) in Hopen end.
  destruct (pages_of w pdf_path) as [pages|] eqn:Hfs;
    [|destruct Hopen as [e0 Hopen]]; rewrite Hopen; simpl;
    try (eexists _, _; split; [done|]; simpl;
         split_and!; eauto; by exists [lit "Processing '" ++ pdf_path ++ lit "' -> '" ++ out ++ lit "'..."]).
  unfold bind at 1.
  match goal with |- context [for_each ?xs ?b ?s ?w0] =>
    pose proof (pages_loop_cases {| doc_name := pdf_path; doc_pages := pages |}
                (length pages) 0 ∅ w0) as [Hsame Hres];
    change (for_each (seq 0 (length pages))
              (page_body {| doc_name := pdf_path; doc_pages := pages |}) ∅ w0)
      with (for_each xs b s w0) in Hsame, Hres;
    destruct (for_each xs b s w0) as [[jd|e] w1] eqn:Hloop end; simpl in *.
  - destruct Hsame as (Hfs1 & Hdisk1 & Href1 & Hcalls1 & Hlive1 & lines & Hout1). simpl in *.
    destruct Hres as [Hin Hout].
    assert (forallb is_page pages = true) as ->.
    { apply forallb_is_page. intros i Hi.
      destruct (Hin i) as (h & wd & ws & Hp & _); [lia|]. eauto. }
    assert (json_of pages jd) as Hjd.
    { split.
      - intros i h wd ws Hp. destruct (Hin i) as (h' & wd' & ws' & Hp' & Hjd).
        + apply lookup_lt_Some in Hp. lia.
        + rewrite Hp in Hp'. by injection Hp' as <- <- <-.
      - intros key Hkey. rewrite Hout; [done|]. intros i Hi. apply Hkey. lia. }
    unfold bind, doc_close, dump_json, writable, failed_dump. simpl.
    rewrite Hfs1, Hdisk1.
    destruct (fs w !! out) as [[c|names]|] eqn:Hfo; simpl;
      try destruct (disk w out) as [|err|err] eqn:Hd; simpl;
      eexists _, _; (split; [done|]); simpl;
      rewrite ?Hlive1, ?remove_first_head, ?Hfs1, ?Hcalls1, ?Hout1, ?Href1;
      split_and!; eauto;
      try (by eexists; rewrite <- !(assoc_L (++))).
  - destruct Hsame as (Hfs1 & Hdisk1 & Href1 & Hcalls1 & Hlive1 & lines & Hout1). simpl in *.
    destruct Hres as (i & Hi & Hbad).
    assert (forallb is_page pages = false) as ->.
    { apply not_true_is_false. rewrite forallb_is_page. intros Hall.
      destruct (Hall i) as (h & wd & ws & Hp); [lia|]. by eapply Hbad. }
    eexists _, _; (split; [done|]); simpl.
    rewrite Hlive1, Hfs1, Hcalls1, Hout1, Href1.
    split_and!; eauto. by eexists; rewrite <- !(assoc_L (++)).
Qed.

End Run.

Lemma join_suffix (a b : str) : b `suffix_of` posixpath.join a b.
Proof.
  unfold posixpath.join.
  destruct (startswith _ _); [done|].
  destruct (_ || _); [by apply suffix_app_r|].
  by apply suffix_app_r, suffix_app_r.
Qed.

Lemma output_path_json (pdf_path : str) :
  lit ".json" `suffix_of` output_path pdf_path.
Proof.
  unfold output_path. etrans; [|apply join_suffix]. by apply suffix_app_r.
Qed.

Lemma output_path_nonempty (pdf_path : str) : output_path pdf_path ≠ [].
Proof.
  intros Heq. pose proof (output_path_json pdf_path) as [k Hk].
  rewrite Heq in Hk. by destruct k.
Qed.

Section Routine.

Context {F : PyFloat}.

Lemma remove_file_lookup (path : str) (m : gmap str Entry) :
  remove_file None path m !! path
  = match m !! path with Some (File _) => None | e => e end.
Proof.
  unfold remove_file. destruct (m !! path) as [[c|names]|] eqn:Hm; [|done..].
  apply lookup_delete_eq.
Qed.

Lemma remove_file_refused (err path : str) (m : gmap str Entry) :
  remove_file (Some err) path m = m.
Proof. unfold remove_file. by destruct (m !! path) as [[c|names]|]. Qed.

Lemma failed_dump_other (w : World) (path q : str) :
  q ≠ path → failed_dump w path !! q = fs w !! q.
Proof.
  intros Hne. unfold failed_dump.
  destruct (fs w !! path) as [[c|names]|], (disk w path); try done.
  all: by apply lookup_insert_ne.
Qed.

Lemma remove_file_other (refused : option str) (path q : str) (m : gmap str Entry) :
  q ≠ path → remove_file refused path m !! q = m !! q.
Proof.
  intros Hne. unfold remove_file.
  destruct (m !! path) as [[c|names]|], refused; try done.
  by apply lookup_delete_ne.
Qed.

(** The routine ends in one of two ways: the [try] block returned, or it
    raised and the [except] block ran after it. *)
Lemma pdf_to_word_json_cases (pdf_path : str) (w : World) :
  let out := output_path pdf_path in
  (∃ w', extract pdf_path out w = (Ret (Some out), w')
         ∧ pdf_to_word_json pdf_path w = (Ret (Some out), w'))
  ∨ (∃ e w1, extract pdf_path out w = (Raise e, w1)
       ∧ pdf_to_word_json pdf_path w
         = (Ret None,
            set_fs (remove_file (refusal w out) out)
              (set_stdout (λ o, o ++ [diagnostic pdf_path e]) w1))).
Proof.
  intros out. unfold pdf_to_word_json, try_except. fold out.
  destruct (extract_cases pdf_path out w) as (r & w' & Hex & _ & Href & _ & _ & Hcase).
  rewrite Hex. destruct r as [o|e].
  - left. exists w'. assert (o = Some out) as ->; [|done].
    destruct (pages_of w pdf_path) as [pages|]; [|by destruct Hcase as [[? ?] _]].
    destruct (forallb is_page pages); [|by destruct Hcase as [[? ?] _]].
    destruct Hcase as [_ Hcase].
    destruct (writable w out); [|by destruct Hcase as [[? ?] _]].
    destruct Hcase as [Hr _]. by injection Hr.
  - right. exists e, w'. split; [done|]. rewrite <- Href.
    by apply cleanup_run, output_path_nonempty.
Qed.

End Routine.

Section RoutineSpec.

Context {F : PyFloat}.

(** Everything a call does, by what it finds. *)
Lemma pdf_to_word_json_spec (pdf_path : str) (w : World) :
  let out := output_path pdf_path in
  ∃ r w', pdf_to_word_json pdf_path w = (Ret r, w')
    ∧ disk w' = disk w
    ∧ refusal w' = refusal w
    ∧ fitz_calls w' = fitz_calls w ++ [pdf_path]
    ∧ (∃ lines, stdout w' = stdout w ++ lines)
    ∧ (r = None → ∃ e w1, extract pdf_path out w = (Raise e, w1)
                          ∧ stdout w' = stdout w1 ++ [diagnostic pdf_path e]
                          ∧ fs w' = remove_file (refusal w out) out (fs w1))
    ∧ match pages_of w pdf_path with
      | None => r = None ∧ fs w' = remove_file (refusal w out) out (fs w)
                ∧ live_docs w' = live_docs w
      | Some pages =>
          if forallb is_page pages then
            live_docs w' = live_docs w
            ∧ if writable w out then
                r = Some out
                ∧ ∃ jd, json_of pages jd ∧ fs w' = <[out := File (JsonDoc jd)]> (fs w)
              else
                r = None
                ∧ fs w' = remove_file (refusal w out) out (failed_dump w out)
          else
            r = None ∧ fs w' = remove_file (refusal w out) out (fs w)
            ∧ live_docs w' = pdf_path :: live_docs w
      end.
Proof.
  intros out.
  destruct (extract_cases pdf_path out w)
    as (r0 & w1 & Hex & Hdisk & Href & Hcalls & [lines Hlines] & Hcase).
  destruct (pdf_to_word_json_cases pdf_path w) as [(w' & Hex' & Hrun)|(e & w1' & Hex' & Hrun)];
    fold out in Hex', Hrun; rewrite Hex in Hex'; injection Hex' as -> <-.
  - exists (Some out), w1. split_and!; [done..|by eauto|done|].
    destruct (pages_of w pdf_path) as [pages|]; [|by destruct Hcase as [[? ?] _]].
    destruct (forallb is_page pages); [|by destruct Hcase as [[? ?] _]].
    destruct Hcase as [Hlive Hcase]. split; [done|].
    destruct (writable w out); [|by destruct Hcase as [[? ?] _]].
    by destruct Hcase as [_ Hjd].
  - eexists None, _. split; [exact Hrun|]. simpl.
    split_and!; [done..| | |].
    + exists (lines ++ [diagnostic pdf_path e]). by rewrite Hlines, (assoc_L (++)).
    + intros _. by exists e, w1.
    + destruct (pages_of w pdf_path) as [pages|].
      * destruct (forallb is_page pages).
        -- destruct Hcase as [Hlive Hcase]. split; [done|].
           destruct (writable w out); [by destruct Hcase as [? _]|].
           destruct Hcase as [_ Hfs]. by rewrite Hfs.
        -- destruct Hcase as (_ & Hfs & Hlive). by rewrite Hfs.
      * destruct Hcase as (_ & Hfs & Hlive). by rewrite Hfs.
Qed.

(** A call that returns a path found a document whose pages all load,
    wrote the mapping built from them to that path, and left nothing
    open. *)
Lemma pdf_to_word_json_returns (pdf_path out : str) (w w' : World) :
  pdf_to_word_json pdf_path w = (Ret (Some out), w') →
  out = output_path pdf_path
  ∧ ∃ pages jd, pages_of w pdf_path = Some pages
      ∧ forallb is_page pages = true
      ∧ writable w out = true
      ∧ json_of pages jd
      ∧ fs w' = <[out := File (JsonDoc jd)]> (fs w)
      ∧ live_docs w' = live_docs w.
Proof.
  intros Hrun.
  destruct (pdf_to_word_json_spec pdf_path w)
    as (r & w'' & Hrun' & _ & _ & _ & _ & _ & Hcase).
  rewrite Hrun in Hrun'. injection Hrun' as <- <-.
  destruct (pages_of w pdf_path) as [pages|] eqn:Hfs;
    [|by destruct Hcase as [? _]].
  destruct (forallb is_page pages) eqn:Hpages; [|by destruct Hcase as [? _]].
  destruct Hcase as [Hlive Hcase].
  destruct (writable w (output_path pdf_path)) eqn:Hwr; [|by destruct Hcase as [? _]].
  destruct Hcase as [Hout (jd & Hjd & Hfs')]. injection Hout as ->.
  split; [done|]. exists pages, jd. by rewrite Hwr.
Qed.

(** The record written for a page that loads. *)
Lemma pdf_to_word_json_page (pdf_path out : str) (w w' : World)
    (pages : list PageSrc) (i : nat) (h wd : float) (ws : list RawWord) :
  fs w !! pdf_path = Some (File (PdfDoc pages)) →
  pdf_to_word_json pdf_path w = (Ret (Some out), w') →
  pages !! i = Some (Page h wd ws) →
  ∃ jd, fs w' !! out = Some (File (JsonDoc jd))
        ∧ jd !! str_of_nat (i + 1) = Some (page_record i h wd ws).
Proof.
  intros Hpdf Hrun Hpage.
  destruct (pdf_to_word_json_returns _ _ _ _ Hrun)
    as (-> & pages' & jd & Hpdf' & _ & _ & [Hin _] & Hfs & _).
  rewrite (pages_of_pdf _ _ _ Hpdf) in Hpdf'. injection Hpdf' as <-.
  exists jd. split; [by rewrite Hfs, lookup_insert_eq|by apply Hin].
Qed.



(** The words written for a page that loads: the kept raw words, in
    order, each with its cleaned text and its flipped, rounded box. *)
Lemma pdf_to_word_json_words (pdf_path out : str) (w w' : World)
    (pages : list PageSrc) (i : nat) (H W : float) (ws : list RawWord) :
  fs w !! pdf_path = Some (File (PdfDoc pages)) →
  pdf_to_word_json pdf_path w = (Ret (Some out), w') →
  pages !! i = Some (Page H W ws) →
  ∃ jd rec,
    fs w' !! out = Some (File (JsonDoc jd))
    ∧ jd !! str_of_nat (i + 1) = Some rec
    ∧ words rec
      = map (λ w, {| text := clean_word (raw_text w);
                     bbox := [round2 (raw_x0 w); round2 (fsub H (raw_y1 w));
                              round2 (raw_x1 w); round2 (fsub H (raw_y0 w))] |})
            (List.filter kept ws).
Proof.
  intros Hpdf Hrun Hpage.
  destruct (pdf_to_word_json_page _ _ _ _ _ _ _ _ _ Hpdf Hrun Hpage) as (jd & Hfs & Hjd).
  exists jd, (page_record i H W ws). split_and!; [done..|]. apply words_loop_filter.
Qed.

End RoutineSpec.

(* ===================================================================== *)
(** ** The extraction routine                                             *)
(* ===================================================================== *)

Section Claims.

Context {F : PyFloat}.

(** C1. After a successful run on a document, the record written for a
    page of height [H] lists exactly the kept words of that page, in
    order, and the box of a word that the library reported at
    [(x0, y0, x1, y1)] is [[round2 x0; round2 (H - y1); round2 x1;
    round2 (H - y0)]]. *)
Theorem written_bbox_is_flipped_and_rounded (pdf_path out : str) (w w' : World)
    (pages : list PageSrc) (i : nat) (H W : float) (ws : list RawWord) :
  fs w !! pdf_path = Some (File (PdfDoc pages)) →
  pdf_to_word_json pdf_path w = (Ret (Some out), w') →
  pages !! i = Some (Page H W ws) →
  ∃ jd rec,
    fs w' !! out = Some (File (JsonDoc jd))
    ∧ jd !! str_of_nat (i + 1) = Some rec
    ∧ length (words rec) = length (List.filter kept ws)
    ∧ ∀ j raw, List.filter kept ws !! j = Some raw →
        ∃ r, words rec !! j = Some r
             ∧ bbox r = [round2 (raw_x0 raw); round2 (fsub H (raw_y1 raw));
                         round2 (raw_x1 raw); round2 (fsub H (raw_y0 raw))].
Proof.
  intros Hpdf Hrun Hpage.
  destruct (pdf_to_word_json_words _ _ _ _ _ _ _ _ _ Hpdf Hrun Hpage)
    as (jd & rec & Hfs & Hjd & Hwords).
  exists jd, rec. split_and!; [done..|by rewrite Hwords, length_map|].
  intros j raw Hraw. eexists. by rewrite Hwords, list_lookup_fmap, Hraw.
Qed.

(** C3. After a successful run on a document of [N] pages, the mapping
    written has exactly [N] keys, the decimal strings of [1] to [N], and
    the [page] field of every record is its key read as an integer. *)
Theorem output_keys_are_page_numbers (pdf_path out : str) (w w' : World)
    (pages : list PageSrc) :
  fs w !! pdf_path = Some (File (PdfDoc pages)) →
  pdf_to_word_json pdf_path w = (Ret (Some out), w') →
  ∃ jd,
    fs w' !! out = Some (File (JsonDoc jd))
    ∧ size jd = length pages
    ∧ dom jd = list_to_set (str_of_nat <$> seq 1 (length pages))
    ∧ ∀ key rec, jd !! key = Some rec →
        int_of_str key = Some (page rec) ∧ (1 ≤ page rec ≤ length pages)%nat.
Proof.
  intros Hpdf Hrun.
  destruct (pdf_to_word_json_returns _ _ _ _ Hrun)
    as (-> & pages' & jd & Hpdf' & Hall & _ & [Hin Hout] & Hfs & _).
  rewrite (pages_of_pdf _ _ _ Hpdf) in Hpdf'. injection Hpdf' as <-.
  rewrite forallb_is_page in Hall.
  assert (∀ key, is_Some (jd !! key)
                 ↔ key ∈ str_of_nat <$> seq 1 (length pages)) as Hkeys.
  { intros key. rewrite list_elem_of_fmap. split.
    - intros Hsome.
      destruct (decide (key ∈ str_of_nat <$> seq 1 (length pages))) as [Hk|Hk].
      + by apply list_elem_of_fmap in Hk.
      + rewrite Hout in Hsome; [by destruct Hsome|].
        intros i Hi ->. apply Hk, list_elem_of_fmap. exists (i + 1)%nat.
        split; [done|]. apply elem_of_seq. lia.
    - intros (k & -> & Hk). apply elem_of_seq in Hk.
      destruct (Hall (k - 1)%nat) as (h & wd & ws & Hp); [lia|].
      apply Hin in Hp. replace (k - 1 + 1)%nat with k in Hp by lia. eauto. }
  assert (dom jd = list_to_set (str_of_nat <$> seq 1 (length pages))) as Hdom.
  { apply set_eq. intros key. by rewrite elem_of_dom, elem_of_list_to_set. }
  exists jd. split_and!.
  - by rewrite Hfs, lookup_insert_eq.
  - rewrite <- size_dom, Hdom, size_list_to_set, length_fmap, length_seq; [done|].
    apply (NoDup_fmap_2 _ (Inj0 := str_of_nat_inj)), NoDup_seq.
  - done.
  - intros key rec Hrec.
    assert (is_Some (jd !! key)) as Hk by eauto.
    apply Hkeys, list_elem_of_fmap in Hk as (k & -> & Hk). apply elem_of_seq in Hk.
    destruct (Hall (k - 1)%nat) as (h & wd & ws & Hp); [lia|].
    apply Hin in Hp. replace (k - 1 + 1)%nat with k in Hp by lia.
    rewrite Hp in Hrec. injection Hrec as <-. simpl.
    rewrite int_of_str_of_nat. split; [f_equal|]; lia.
Qed.

(** C4. After a successful run, the texts written for a page are the
    texts of its raw words with the non-printable characters removed and
    then stripped, those that come out empty left out and the order kept;
    a text made of white space and non-printable characters only comes out
    empty; and no text written is empty or would change if cleaned
    again. *)
Theorem empty_words_are_discarded (pdf_path out : str) (w w' : World)
    (pages : list PageSrc) (i : nat) (H W : float) (ws : list RawWord) :
  fs w !! pdf_path = Some (File (PdfDoc pages)) →
  pdf_to_word_json pdf_path w = (Ret (Some out), w') →
  pages !! i = Some (Page H W ws) →
  ∃ jd rec,
    fs w' !! out = Some (File (JsonDoc jd))
    ∧ jd !! str_of_nat (i + 1) = Some rec
    ∧ map text (words rec)
      = List.filter (λ t, negb (bool_decide (t = [])))
          (map (λ w, strip (List.filter isprintable (raw_text w))) ws)
    ∧ (∀ t, Forall (λ c, isspace c = true ∨ isprintable c = false) t →
            strip (List.filter isprintable t) = [])
    ∧ Forall (λ r, text r ≠ []
                   ∧ strip (List.filter isprintable (text r)) = text r)
             (words rec).
Proof.
  intros Hpdf Hrun Hpage.
  destruct (pdf_to_word_json_page _ _ _ _ _ _ _ _ _ Hpdf Hrun Hpage) as (jd & Hfs & Hjd).
  exists jd, (page_record i H W ws). split_and!; [done..| | |]; simpl.
  - rewrite words_loop_texts. apply filter_ext. intros [|c t]; done.
  - intros t Ht. apply clean_word_nil. eapply Forall_impl; [exact Ht|].
    intros c [?|?]; auto.
  - rewrite words_loop_filter. apply Forall_fmap, Forall_forall.
    intros r Hr. apply list_elem_of_In, filter_In in Hr as [_ Hr]. simpl.
    split; [by apply truthy_true|apply clean_word_idemp].
Qed.

(** C6. A call never raises. It returns the output path exactly when the
    document opens, all its pages load and the dump goes through. In every
    other case it returns [None], the last line printed is
    [Error processing <input path>: <error>] for the exception the [try]
    block raised, and no other path of the file system has changed. At
    the output path the [except] block tries a removal: when the system
    does not refuse it no file is left there; when it refuses, the error
    is swallowed and the file system stays as the [try] block left it, a
    file at the output path included. *)
Theorem failure_removes_output_and_returns_None (pdf_path : str) (w : World) :
  ∃ r w',
    pdf_to_word_json pdf_path w = (Ret r, w')
    ∧ match r with
      | Some p =>
          p = output_path pdf_path
          ∧ ∃ pages, pages_of w pdf_path = Some pages
                     ∧ forallb is_page pages = true
                     ∧ writable w (output_path pdf_path) = true
      | None =>
          (∀ pages, pages_of w pdf_path = Some pages →
                    forallb is_page pages = true →
                    writable w (output_path pdf_path) = false)
          ∧ (∃ e w1, extract pdf_path (output_path pdf_path) w = (Raise e, w1)
                     ∧ stdout w'
                       = stdout w1 ++ [lit "Error processing " ++ pdf_path
                                       ++ lit ": " ++ exn_msg e]
                     ∧ (refusal w (output_path pdf_path) = None →
                        ∀ c, fs w' !! output_path pdf_path ≠ Some (File c))
                     ∧ (∀ err, refusal w (output_path pdf_path) = Some err →
                               fs w' = fs w1))
          ∧ (∀ q, q ≠ output_path pdf_path → fs w' !! q = fs w !! q)
      end.
Proof.
  destruct (pdf_to_word_json_spec pdf_path w)
    as (r & w' & Hrun & _ & _ & _ & _ & Hdiag & Hcase).
  simpl in Hdiag, Hcase. set (out := output_path pdf_path) in *.
  exists r, w'. split; [done|].
  assert (r = None →
          ∃ e w1, extract pdf_path out w = (Raise e, w1)
            ∧ stdout w' = stdout w1 ++ [lit "Error processing " ++ pdf_path
                                        ++ lit ": " ++ exn_msg e]
            ∧ (refusal w out = None → ∀ c, fs w' !! out ≠ Some (File c))
            ∧ (∀ err, refusal w out = Some err → fs w' = fs w1)) as Hleft.
  { intros Hr. destruct (Hdiag Hr) as (e & w1 & Hex & Hout & Hfs').
    exists e, w1. split_and!; [done..| |].
    - intros Href c. rewrite Hfs', Href, remove_file_lookup.
      by destruct (fs w1 !! out) as [[?|?]|].
    - intros err Href. by rewrite Hfs', Href, remove_file_refused. }
  assert (∀ m, fs w' = remove_file (refusal w out) out m →
               ∀ q, q ≠ out → fs w' !! q = m !! q) as Hframe.
  { intros m -> q Hq. by apply remove_file_other. }
  destruct (pages_of w pdf_path) as [pages|] eqn:Hfs.
  2: { destruct Hcase as (-> & Hfs' & _).
       split; [done|]. split; [by apply Hleft|by apply Hframe]. }
  destruct (forallb is_page pages) eqn:Hpages.
  - destruct Hcase as [_ Hcase]. destruct (writable w out) eqn:Hwr.
    + destruct Hcase as [-> _]. split; [done|]. by exists pages.
    + destruct Hcase as [-> Hfs']. split.
      * by intros ? [= <-] _.
      * split; [by apply Hleft|].
        intros q Hq. rewrite (Hframe _ Hfs' q Hq). by apply failed_dump_other.
  - destruct Hcase as (-> & Hfs' & _). split.
    + intros ? [= <-] ?. congruence.
    + split; [by apply Hleft|by apply Hframe].
Qed.


(** The handles a call leaves open: the document stays open exactly when
    one of its pages does not load. *)
Lemma pdf_to_word_json_live_docs (pdf_path : str) (w : World) :
  live_docs (pdf_to_word_json pdf_path w).2
  = match pages_of w pdf_path with
    | Some pages =>
        if forallb is_page pages then live_docs w else pdf_path :: live_docs w
    | None => live_docs w
    end.
Proof.
  destruct (pdf_to_word_json_spec pdf_path w)
    as (r & w' & Hrun & _ & _ & _ & _ & _ & Hcase).
  rewrite Hrun. simpl.
  destruct (pages_of w pdf_path) as [pages|] eqn:Hfs;
    [|by destruct Hcase as (_ & _ & ?)].
  destruct (forallb is_page pages); [by destruct Hcase as [? _]|].
  by destruct Hcase as (_ & _ & ?).
Qed.

End Claims.

(* ===================================================================== *)
(** ** The order of the written boxes                                     *)
(* ===================================================================== *)

Section Ordered.

#[local] Existing Instance binary64.

(** The words of a page of finite height, when the library gives every
    box in order. *)
Lemma words_loop_ordered (H : float) (ws : list RawWord) :
  PrimFloat.is_finite H = true →
  Forall (λ w, fle (raw_x0 w) (raw_x1 w) ∧ fle (raw_y0 w) (raw_y1 w)) ws →
  Forall bbox_ordered (words_loop H ws).
Proof.
  intros Hfin Hws. rewrite words_loop_filter. apply Forall_fmap, Forall_forall.
  intros w Hw. apply list_elem_of_In, filter_In in Hw as [Hw _].
  apply list_elem_of_In in Hw.
  rewrite Forall_forall in Hws. destruct (Hws w Hw) as [Hx Hy].
  unfold bbox_ordered. simpl. split.
  - by apply b64_round2_mono.
  - by apply b64_round2_mono, b64_sub_antitone.
Qed.


End Ordered.

Lemma is_pdf_name_output (pdf_path : str) : is_pdf_name (output_path pdf_path) = false.
Proof.
  unfold is_pdf_name, endswith. apply bool_decide_eq_false. intros [k Hk].
  destruct (output_path_json pdf_path) as [k' Hk']. rewrite Hk' in Hk.
  unfold lower in Hk. rewrite map_app in Hk. apply (f_equal last) in Hk.
  change (map lower_char (lit ".json")) with (lit ".jso" ++ ["n"%char]) in Hk.
  change (lit ".pdf") with (lit ".pd" ++ ["f"%char]) in Hk.
  by rewrite !(assoc_L (++)), !last_snoc in Hk.
Qed.

Section Driver.

Context {F : PyFloat}.

(** A call touches the file system at its output path only. *)
Lemma pdf_to_word_json_frame (pdf_path q : str) (w : World) :
  q ≠ output_path pdf_path →
  fs (pdf_to_word_json pdf_path w).2 !! q = fs w !! q.
Proof.
  intros Hq.
  destruct (pdf_to_word_json_spec pdf_path w)
    as (r & w' & Hrun & _ & _ & _ & _ & _ & Hcase).
  rewrite Hrun. simpl. set (out := output_path pdf_path) in *.
  assert (fs w' = remove_file (refusal w out) out (fs w)
          ∨ fs w' = remove_file (refusal w out) out (failed_dump w out)
          ∨ ∃ e, fs w' = <[out := e]> (fs w)) as Hfs.
  { destruct (pages_of w pdf_path) as [pages|]; [|by left; destruct Hcase as (_ & ? & _)].
    destruct (forallb is_page pages); [|by left; destruct Hcase as (_ & ? & _)].
    destruct Hcase as [_ Hcase]. destruct (writable w _).
    - destruct Hcase as (_ & jd & _ & ?). right. right. eauto.
    - destruct Hcase as [_ ?]; auto. }
  destruct Hfs as [-> |[-> |[e ->]]].
  - by apply remove_file_other.
  - rewrite remove_file_other by done. by apply failed_dump_other.
  - by apply lookup_insert_ne.
Qed.

Lemma pdf_to_word_json_keeps_pdfs (pdf_path q : str) (w : World) :
  is_pdf_name q = true →
  fs (pdf_to_word_json pdf_path w).2 !! q = fs w !! q.
Proof.
  intros Hq. apply pdf_to_word_json_frame. intros ->.
  by rewrite is_pdf_name_output in Hq.
Qed.

Lemma argument_body_run (a : str) (w : World) :
  argument_body a w
  = if valid_arg w a
    then (Ret (), (pdf_to_word_json a w).2)
    else (Ret (), set_stdout (λ o, o ++ [skip_line a]) w).
Proof.
  unfold argument_body, bind, isfile, valid_arg. simpl.
  destruct (_ && _); [|done].
  destruct (pdf_to_word_json_spec a w) as (r & w' & -> & _). done.
Qed.

Lemma arguments_loop (w0 : World) (args : list str) (w : World) :
  (∀ q, is_pdf_name q = true → fs w !! q = fs w0 !! q) →
  ∃ w' lines,
    for_each args (λ a _, argument_body a) () w = (Ret (), w')
    ∧ fitz_calls w' = fitz_calls w ++ List.filter (valid_arg w0) args
    ∧ stdout w' = stdout w ++ lines
    ∧ ∀ a, a ∈ args → valid_arg w0 a = false → skip_line a ∈ lines.
Proof.
  revert w. induction args as [|a args IH]; intros w Hinv; simpl.
  - exists w, []. rewrite !(right_id_L [] (++)). split_and!; try done.
    intros a Ha. by apply elem_of_nil in Ha.
  - unfold bind at 1. rewrite argument_body_run.
    assert (valid_arg w a = valid_arg w0 a) as ->.
    { unfold valid_arg. destruct (is_pdf_name a) eqn:Hn; [|by rewrite !andb_false_r].
      by rewrite Hinv. }
    destruct (valid_arg w0 a) eqn:Hvalid.
    + destruct (IH (pdf_to_word_json a w).2) as (w' & lines & Hrun & Hcalls & Hout & Hskip).
      { intros q Hq. rewrite pdf_to_word_json_keeps_pdfs by done. by apply Hinv. }
      destruct (pdf_to_word_json_spec a w)
        as (r & w1 & Hcall & _ & _ & Hcalls1 & [lines1 Hout1] & _).
      rewrite Hcall in *. simpl in *.
      exists w', (lines1 ++ lines). split_and!.
      * done.
      * by rewrite Hcalls, Hcalls1, <- (assoc_L (++)).
      * by rewrite Hout, Hout1, <- (assoc_L (++)).
      * intros b Hb Hinvalid. apply elem_of_app. right. apply Hskip; [|done].
        apply elem_of_cons in Hb as [->|Hb]; [congruence|done].
    + destruct (IH (set_stdout (λ o, o ++ [skip_line a]) w))
        as (w' & lines & Hrun & Hcalls & Hout & Hskip); [done|].
      simpl in *. exists w', (skip_line a :: lines). split_and!.
      * done.
      * done.
      * by rewrite Hout, <- (assoc_L (++)).
      * intros b Hb Hinvalid. apply elem_of_cons in Hb as [->|Hb].
        -- apply elem_of_cons. by left.
        -- apply elem_of_cons. right. by apply Hskip.
Qed.

(** C8. With one argument or more the script exits with status 0 after
    going through all of them: [fitz.open] has been called on exactly the
    arguments that are an existing file whose name ends with [.pdf] in any
    letter case, in the order given (whatever became of the earlier ones),
    and for every other argument the line [Skipping invalid path or
    non-PDF file: <argument>] has been printed. *)
Theorem invalid_arguments_are_skipped (argv : list str) (w : World) :
  (2 ≤ length argv)%nat →
  ∃ w',
    main argv w = (Ret 0, w')
    ∧ fitz_calls w' = fitz_calls w ++ List.filter (valid_arg w) (drop 1 argv)
    ∧ ∀ a, a ∈ drop 1 argv → valid_arg w a = false →
           (lit "Skipping invalid path or non-PDF file: " ++ a) ∈ stdout w'.
Proof.
  intros Hlen. unfold main.
  replace (length argv <? 2)%nat with false by (symmetry; apply Nat.ltb_ge; lia).
  destruct (arguments_loop w (drop 1 argv) w) as (w' & lines & Hrun & Hcalls & Hout & Hskip);
    [done|].
  exists w'. unfold bind. rewrite Hrun. split_and!; [done..|].
  intros a Ha Hinvalid. rewrite Hout. apply elem_of_app. right. by apply Hskip.
Qed.

Lemma found_files_loop (files : list str) (w : World) :
  ∃ w', for_each files (λ pdf_file _, pdf_to_word_json pdf_file >> ret ()) () w
        = (Ret (), w').
Proof.
  revert w. induction files as [|f files IH]; intros w; simpl; [by eexists|].
  unfold bind at 1 2.
  destruct (pdf_to_word_json_spec f w) as (r & w1 & -> & _). simpl.
  apply IH.
Qed.

Lemma bind_run {A B} (m : M A) (k : A → M B) (w w1 : World) (a : A) :
  m w = (Ret a, w1) → bind m k w = k a w1.
Proof. intros Hm. unfold bind. by rewrite Hm. Qed.

Lemma no_arguments_run (w : World) : ∃ w', no_arguments w = (Ret 1, w').
Proof.
  unfold no_arguments.
  erewrite bind_run by reflexivity. erewrite bind_run by reflexivity.
  erewrite bind_run by reflexivity.
  set (default_dir := posixpath.join (lit "chapters") (lit "ancient-history")).
  match goal with |- context [bind _ _ ?w0] => set (w1 := w0) end.
  change (fs w1) with (fs w).
  assert (∀ m : M (), (∃ w2, m w1 = (Ret (), w2)) →
            ∃ w', (m >> ret 1) w1 = (Ret 1, w')) as Hseq.
  { intros m [w2 Hm]. exists w2. by erewrite bind_run. }
  destruct (fs w !! default_dir) as [[c|names]|] eqn:Hdir;
    apply Hseq; [by eexists| |by eexists].
  erewrite bind_run;
    [|by unfold listdir; change (fs w1) with (fs w); rewrite Hdir].
  destruct (map (posixpath.join default_dir) (List.filter is_pdf_name names))
    as [|f files]; [by eexists|].
  erewrite bind_run by reflexivity. apply found_files_loop.
Qed.

(** C9. With no argument the script ends by [sys.exit(1)], in every
    world: whether or not the default directory exists, holds PDF files,
    and whatever their extraction gives, the process exits with
    status 1. *)
Theorem no_arguments_exit_status_1 (argv : list str) (w : World) :
  (length argv < 2)%nat →
  (∃ w', main argv w = (Ret 1, w')) ∧ (run argv w).1 = 1.
Proof.
  intros Hlen. unfold run, main.
  replace (length argv <? 2)%nat with true by (symmetry; apply Nat.ltb_lt; lia).
  destruct (no_arguments_run w) as [w' Hrun]. rewrite Hrun. eauto.
Qed.

End Driver.

(* ===================================================================== *)
(** ** The sample worlds                                                  *)
(* ===================================================================== *)

Lemma run_returns `{F : PyFloat} {A : Type} (m : M A) (w : World) (a : A) :
  (m w).1 = Ret a → m w = (Ret a, (m w).2).
Proof. destruct (m w) as [r w']. simpl. by intros ->. Qed.

Section Samples.

Import Sample.

#[local] Existing Instance Q_float.

(** A run that returns, as the pair of its result and its final world. *)
Example round2_examples :
  Q_round2 2.675 = 2.68%Q ∧ Q_round2 2.665 = 2.66%Q
  ∧ Q_round2 (-2.675) = (-2.68)%Q ∧ Q_round2 (1 # 3) = 0.33%Q.
Proof. split_and!; reflexivity. Qed.

Example sanitize_filename_examples :
  sanitize_filename (lit "chapters/ancient history/My File (v2).final.pdf")
  = lit "My_File__v2__final"
  ∧ sanitize_filename (lit "/tmp/.bashrc") = lit "_bashrc"
  ∧ sanitize_filename (lit "a.tar.gz") = lit "a_tar".
Proof. split_and!; reflexivity. Qed.

(** The scenario of the specification: one page of height 792 with the
    word Hello at [[72, 100, 120, 115]]. *)
Example hello_scenario :
  words_loop 792%Q [hello]
  = [ {| text := lit "Hello"; bbox := [72.00; 677.00; 120.00; 692.00]%Q |} ].
Proof. reflexivity. Qed.

Example good_pages_words :
  words_loop 792%Q [hello; blanks; world]
  = [ {| text := lit "Hello"; bbox := [72.00; 677.00; 120.00; 692.00]%Q |};
      {| text := lit "world"; bbox := [135.00; 676.62; 180.50; 691.88]%Q |} ].
Proof. reflexivity. Qed.

Example good_run :
  (pdf_to_word_json good_pdf w0).1 = Ret (Some good_json)
  ∧ stdout w_good
    = [lit "Processing 'a/good.pdf' -> 'a/good.json'...";
       lit "  - Page 1: Found 2 words.";
       lit "  - Page 2: Found 0 words.";
       lit "Successfully created JSON: a/good.json"]
  ∧ live_docs w_good = [].
Proof. split_and!; reflexivity. Qed.

(** Called on the empty string, [fitz.open] makes a new document without
    pages: the call succeeds and writes the empty mapping to [.json]. *)
Example empty_path_run :
  (pdf_to_word_json [] w0).1 = Ret (Some (lit ".json"))
  ∧ fs (pdf_to_word_json [] w0).2 !! lit ".json" = Some (File (JsonDoc ∅))
  ∧ stdout (pdf_to_word_json [] w0).2
    = [lit "Processing '' -> '.json'...";
       lit "Successfully created JSON: .json"]
  ∧ live_docs (pdf_to_word_json [] w0).2 = [].
Proof. split_and!; reflexivity. Qed.

(** C2, at a document whose second page does not load: nothing is open
    before the call, the call returns [None], and the document it opened
    is still open after it. *)
Theorem page_error_leaves_document_open :
  fs w0 !! bad_pdf
  = Some (File (PdfDoc [Page 792%Q 612%Q [hello];
                        BrokenPage (lit "cannot load page")]))
  ∧ live_docs w0 = []
  ∧ (pdf_to_word_json bad_pdf w0).1 = Ret None
  ∧ live_docs (pdf_to_word_json bad_pdf w0).2 = [bad_pdf]
  ∧ stdout (pdf_to_word_json bad_pdf w0).2
    = [lit "Processing 'a/bad.pdf' -> 'a/bad.json'...";
       lit "  - Page 1: Found 1 words.";
       lit "Error processing a/bad.pdf: cannot load page"].
Proof. split_and!; reflexivity. Qed.

Lemma written_bbox_is_flipped_and_rounded_witness :
  ∃ jd rec,
    fs w_good !! good_json = Some (File (JsonDoc jd))
    ∧ jd !! str_of_nat (0 + 1) = Some rec
    ∧ length (words rec) = length (List.filter kept [hello; blanks; world])
    ∧ ∀ j raw, List.filter kept [hello; blanks; world] !! j = Some raw →
        ∃ r, words rec !! j = Some r
             ∧ bbox r = [round2 (raw_x0 raw); round2 (fsub 792%Q (raw_y1 raw));
                         round2 (raw_x1 raw); round2 (fsub 792%Q (raw_y0 raw))].
Proof.
  apply (written_bbox_is_flipped_and_rounded good_pdf good_json w0 w_good
           good_pages 0 792%Q 612%Q [hello; blanks; world]).
  - reflexivity.
  - unfold w_good. apply run_returns. reflexivity.
  - reflexivity.
Defined.

Lemma output_keys_are_page_numbers_witness :
  ∃ jd,
    fs w_good !! good_json = Some (File (JsonDoc jd))
    ∧ size jd = length good_pages
    ∧ dom jd = list_to_set (str_of_nat <$> seq 1 (length good_pages))
    ∧ ∀ key rec, jd !! key = Some rec →
        int_of_str key = Some (page rec) ∧ (1 ≤ page rec ≤ length good_pages)%nat.
Proof.
  apply (output_keys_are_page_numbers good_pdf good_json w0 w_good good_pages).
  - reflexivity.
  - unfold w_good. apply run_returns. reflexivity.
Defined.

Lemma empty_words_are_discarded_witness :
  ∃ jd rec,
    fs w_good !! good_json = Some (File (JsonDoc jd))
    ∧ jd !! str_of_nat (0 + 1) = Some rec
    ∧ map text (words rec)
      = List.filter (λ t, negb (bool_decide (t = [])))
          (map (λ w, strip (List.filter isprintable (raw_text w)))
               [hello; blanks; world])
    ∧ (∀ t, Forall (λ c, isspace c = true ∨ isprintable c = false) t →
            strip (List.filter isprintable t) = [])
    ∧ Forall (λ r, text r ≠ []
                   ∧ strip (List.filter isprintable (text r)) = text r)
             (words rec).
Proof.
  apply (empty_words_are_discarded good_pdf good_json w0 w_good
           good_pages 0 792%Q 612%Q [hello; blanks; world]).
  - reflexivity.
  - unfold w_good. apply run_returns. reflexivity.
  - reflexivity.
Defined.

(** A dump that fails midway where the system refuses removals: the
    call returns [None] and the truncated file stays at the output path. *)
Lemma refused_removal_leaves_truncated_output :
  fs w_full !! output_path good_pdf = None
  ∧ (pdf_to_word_json good_pdf w_full).1 = Ret None
  ∧ fs (pdf_to_word_json good_pdf w_full).2 !! output_path good_pdf
    = Some (File Truncated)
  ∧ last (stdout (pdf_to_word_json good_pdf w_full).2)
    = Some (lit "Error processing a/good.pdf: No space left on device").
Proof. split_and!; reflexivity. Qed.



Lemma invalid_arguments_are_skipped_witness :
  ∃ w',
    main argv w0 = (Ret 0, w')
    ∧ fitz_calls w' = fitz_calls w0 ++ List.filter (valid_arg w0) (drop 1 argv)
    ∧ ∀ a, a ∈ drop 1 argv → valid_arg w0 a = false →
           (lit "Skipping invalid path or non-PDF file: " ++ a) ∈ stdout w'.
Proof.
  apply (invalid_arguments_are_skipped argv w0). unfold argv. simpl. lia.
Defined.

Example argv_run :
  (run argv w0).1 = 0
  ∧ fitz_calls (run argv w0).2 = [good_pdf; bad_pdf]
  ∧ List.filter (λ l, startswith l (lit "Skipping")) (stdout (run argv w0).2)
    = [lit "Skipping invalid path or non-PDF file: a/gone.pdf";
       lit "Skipping invalid path or non-PDF file: a/gone.json"].
Proof. split_and!; reflexivity. Qed.

Lemma no_arguments_exit_status_1_witness :
  (∃ w', main [lit "process_pdf.py"] w0 = (Ret 1, w'))
  ∧ (run [lit "process_pdf.py"] w0).1 = 1.
Proof.
  apply (no_arguments_exit_status_1 [lit "process_pdf.py"] w0). simpl. lia.
Defined.

(** With no argument, a default directory that exists and one PDF file in
    it that is extracted without error: the status is still 1. *)
Example no_arguments_all_extracted :
  (run [lit "process_pdf.py"] w0).1 = 1
  ∧ stdout (run [lit "process_pdf.py"] w0).2
    = [lit "Usage: python process_pdf.py <path_to_pdf_file1> [path_to_pdf_file2] ...";
       [newline] ++ lit "No PDF path provided. Searching in default directory: 'chapters/ancient-history'";
       lit "Found PDF files: rome.PDF";
       lit "Processing 'chapters/ancient-history/rome.PDF' -> 'chapters/ancient-history/rome.json'...";
       lit "  - Page 1: Found 2 words.";
       lit "  - Page 2: Found 0 words.";
       lit "Successfully created JSON: chapters/ancient-history/rome.json"].
Proof. split_and!; reflexivity. Qed.

End Samples.

Section Samples64.

Import PrimFloat Sample64.

#[local] Existing Instance binary64.

#[local] Set Warnings "-inexact-float".

(** [round(x, 2)] on binary64, as Python computes it: [2.675] is below
    the decimal it is written as, [0.125] and [0.375] are exact ties. *)
Example round2_examples_binary64 :
  b64_round2 2.675 = 2.67%float
  ∧ b64_round2 0.125 = 0.12%float
  ∧ b64_round2 0.375 = 0.38%float
  ∧ b64_round2 (-0.001) = neg_zero
  ∧ b64_round2 676.625 = 676.62%float
  ∧ b64_round2 123456789012.345 = 123456789012.35%float
  ∧ b64_round2 0x1p+60 = 0x1p+60%float
  ∧ b64_round2 infinity = infinity
  ∧ b64_round2 nan = nan.
Proof. split_and!; reflexivity. Qed.

Example good_pages_words_binary64 :
  words_loop 792%float [hello; world]
  = [ {| text := lit "Hello";
         bbox := [72%float; 677%float; 120%float; 692%float] |};
      {| text := lit "world";
         bbox := [135%float; 676.62%float; 180.5%float; 691.88%float] |} ].
Proof. reflexivity. Qed.

(** The scenario of the specification over binary64. *)
Example hello_scenario_binary64 :
  words_loop 792%float [hello]
  = [ {| text := lit "Hello";
         bbox := [72%float; 677%float; 120%float; 692%float] |} ].
Proof. reflexivity. Qed.



End Samples64.

(* ===================================================================== *)
(** * Further properties                                                  *)
(* ===================================================================== *)

Section SanitizeMore.

Import posixpath.

Lemma basename_id (b : str) : (sep ∉ b) → basename b = b.
Proof.
  intros Hb. destruct (basename_cases b) as [[_ ?]|(a & b' & -> & _ & _)]; [done|].
  exfalso. apply Hb. set_solver.
Qed.

Lemma basename_app (d b : str) : (sep ∉ b) → basename (d ++ sep :: b) = b.
Proof.
  intros Hb. unfold basename. rewrite rfind_last by done.
  replace (Z.of_nat (length d) + 1) with (len (d ++ [sep]))
    by (rewrite len_app; unfold len; simpl; lia).
  rewrite (cons_middle sep d b), (assoc_L (++)). apply slice_from_app.
Qed.

Lemma splitext_id (s : str) :
  (sep ∉ s) → (extsep ∉ s) → splitext s = (s, []).
Proof.
  intros Hsep Hdot.
  destruct (splitext_cases s Hsep) as [[? _]|(a & b & -> & _)]; [done|].
  exfalso. apply Hdot. set_solver.
Qed.

Lemma sanitize_filename_chars (filename : str) :
  Forall word_or_hyphen (sanitize_filename filename).
Proof.
  unfold sanitize_filename. destruct (splitext _) as [stem ext].
  unfold re_sub_class. apply Forall_fmap, Forall_forall. intros c _. simpl.
  destruct (not_word_or_hyphen c) eqn:Hc.
  - right. by left.
  - by apply not_word_or_hyphen_false.
Qed.

Lemma word_or_hyphen_not_sep (c : ascii) :
  word_or_hyphen c → c ≠ sep ∧ c ≠ extsep.
Proof. intros [Hc|[-> | ->]]; split; try done; by intros ->. Qed.

Lemma re_sub_class_id (s : str) :
  Forall word_or_hyphen s → re_sub_class not_word_or_hyphen "_" s = s.
Proof.
  induction 1 as [|c s Hc _ IH]; [done|]. unfold re_sub_class in *. simpl.
  apply not_word_or_hyphen_false in Hc. by rewrite Hc, IH.
Qed.

(** X1. [sanitize_filename] is idempotent: what it returns holds neither a
    separator nor a dot, so that sanitizing it again changes nothing. *)
Theorem sanitize_filename_idempotent (filename : str) :
  sanitize_filename (sanitize_filename filename) = sanitize_filename filename.
Proof.
  pose proof (sanitize_filename_chars filename) as Hall.
  set (r := sanitize_filename filename) in *.
  assert ((sep ∉ r) ∧ (extsep ∉ r)) as [Hsep Hdot].
  { rewrite Forall_forall in Hall.
    split; intros Hin; by destruct (word_or_hyphen_not_sep _ (Hall _ Hin)). }
  unfold sanitize_filename. rewrite basename_id, splitext_id by done.
  by apply re_sub_class_id.
Qed.

(** X2. [sanitize_filename] does not depend on the directory: for a name
    without [/], the result for [dir/name] is the result for [name]. *)
Theorem sanitize_filename_ignores_directory (dir name : str) :
  (sep ∉ name) →
  sanitize_filename (dir ++ [sep] ++ name) = sanitize_filename name.
Proof.
  intros Hname. unfold sanitize_filename. simpl.
  by rewrite basename_app, basename_id.
Qed.

(** X3. [sanitize_filename] returns the empty string exactly when its
    argument is empty or ends with [/]. *)
Theorem sanitize_filename_empty (filename : str) :
  sanitize_filename filename = []
  ↔ filename = [] ∨ [sep] `suffix_of` filename.
Proof.
  assert (sanitize_filename filename = [] ↔ basename filename = []) as ->.
  { unfold sanitize_filename.
    destruct (splitext_cases _ (basename_no_sep filename))
      as [[-> _]|(a & b & Hb & _ & (c & Hc & _) & ->)]; unfold re_sub_class.
    - split; [apply fmap_nil_inv|by intros ->].
    - split.
      + intros ->%fmap_nil_inv. by apply elem_of_nil in Hc.
      + rewrite Hb. by destruct a. }
  destruct (basename_cases filename) as [[Hno ->]|(a & b & -> & Hb & ->)].
  - split; [by left|]. intros [?|[k ->]]; [done|].
    exfalso. apply Hno. set_solver.
  - split.
    + intros ->. right. by exists a.
    + intros [Hnil|[k Hk]]; [by destruct a|].
      destruct b as [|c b _] using rev_ind; [done|].
      rewrite app_comm_cons, !(assoc_L (++)) in Hk.
      apply app_inj_tail in Hk as [_ ->]. exfalso. apply Hb. set_solver.
Qed.

End SanitizeMore.

Section OutputPath.

Import posixpath.

Lemma rfind_app_absent (c : ascii) (s t : str) :
  (c ∉ t) → rfind c (s ++ t) = rfind c s.
Proof.
  intros Ht. destruct (last_occurrence c s) as [Hs|(a & b & -> & Hb)].
  - rewrite !rfind_absent; [done..|]. rewrite elem_of_app. tauto.
  - rewrite <- (assoc_L (++)), <- app_comm_cons, !rfind_last; [done..|].
    rewrite elem_of_app. tauto.
Qed.

Lemma rfind_bounds (c : ascii) (s : str) : -1 ≤ rfind c s < len s.
Proof.
  destruct (last_occurrence c s) as [Hs|(a & b & -> & Hb)].
  - rewrite rfind_absent by done. unfold len. lia.
  - rewrite rfind_last by done. rewrite len_app. unfold len. simpl. lia.
Qed.

Lemma slice_to_app_le (i : Z) (s t : str) :
  0 ≤ i ≤ len s → slice_to i (s ++ t) = slice_to i s.
Proof.
  intros Hi. unfold slice_to.
  rewrite !clip_in_range by (rewrite ?len_app; unfold len in *; lia).
  apply take_app_le. unfold len in Hi. lia.
Qed.

Lemma all_sep_replicate (s : str) :
  s = replicate (length s) sep ↔ all_sep s.
Proof.
  unfold all_sep. split.
  - intros ->. induction (length s); simpl; by constructor.
  - induction 1 as [|c s -> _ IH]; simpl; [done|]. by rewrite <- IH.
Qed.

Lemma rstrip_char_snoc (c : ascii) (s : str) :
  rstrip_char c (s ++ [c]) = rstrip_char c s.
Proof.
  unfold rstrip_char, rstrip_with. rewrite reverse_snoc. simpl.
  by rewrite Ascii.eqb_refl.
Qed.

Lemma rstrip_char_nil (c : ascii) (s : str) :
  rstrip_char c s = [] ↔ Forall (λ x, x = c) s.
Proof.
  unfold rstrip_char. rewrite rstrip_with_nil. apply Forall_iff. intros x.
  rewrite Ascii.eqb_eq. split; congruence.
Qed.

Lemma rstrip_char_id (c x : ascii) (s : str) :
  x ≠ c → rstrip_char c (s ++ [x]) = s ++ [x].
Proof.
  intros Hx. apply rstrip_with_id. apply Ascii.eqb_neq. congruence.
Qed.

Lemma rstrip_char_last (c : ascii) (s : str) :
  rstrip_char c s = [] ∨ ∃ r x, rstrip_char c s = r ++ [x] ∧ x ≠ c.
Proof.
  pose proof (rstrip_with_last (Ascii.eqb c) s) as Hlast.
  unfold rstrip_char.
  destruct (rstrip_with (Ascii.eqb c) s) as [|x r _] using rev_ind; [by left|].
  right. exists r, x. split; [done|]. rewrite last_snoc in Hlast.
  apply Ascii.eqb_neq in Hlast. congruence.
Qed.

Lemma dirname_absent (p : str) : (sep ∉ p) → dirname p = [].
Proof.
  intros Hp. unfold dirname. rewrite rfind_absent by done. simpl.
  by rewrite slice_to_0.
Qed.

Lemma dirname_split (a b : str) :
  (sep ∉ b) →
  dirname (a ++ sep :: b)
  = if bool_decide (all_sep a) then a ++ [sep] else rstrip_char sep a.
Proof.
  intros Hb. unfold dirname. rewrite rfind_last by done.
  replace (Z.of_nat (length a) + 1) with (len (a ++ [sep]))
    by (rewrite len_app; unfold len; simpl; lia).
  rewrite (cons_middle sep a b), (assoc_L (++)), slice_to_app.
  replace (truthy (a ++ [sep])) with true by (by destruct a).
  simpl. rewrite rstrip_char_snoc.
  destruct (decide (all_sep a)) as [Ha|Ha].
  - rewrite bool_decide_true, (bool_decide_true (all_sep a)); [done..|].
    apply all_sep_replicate. apply Forall_app. split; [done|].
    by repeat constructor.
  - rewrite bool_decide_false, (bool_decide_false (all_sep a)); [done..|].
    intros Hall%all_sep_replicate. by apply Forall_app in Hall as [? _].
Qed.

Lemma dirname_shape (p : str) : dir_shape (dirname p).
Proof.
  destruct (last_occurrence sep p) as [Hp|(a & b & -> & Hb)].
  - left. by apply dirname_absent.
  - rewrite dirname_split by done. case_bool_decide as Ha.
    + right. left. split; [by destruct a|].
      apply Forall_app. split; [done|]. by repeat constructor.
    + destruct (rstrip_char_last sep a) as [Hnil|Hlast]; [|by right; right].
      by apply rstrip_char_nil in Hnil.
Qed.

Lemma join_split (d b : str) :
  dir_shape d → (sep ∉ b) →
  dirname (join d b) = d ∧ basename (join d b) = b.
Proof.
  intros Hd Hb. unfold join.
  assert (startswith b [sep] = false) as ->.
  { apply bool_decide_eq_false. intros [k ->]. apply Hb. set_solver. }
  destruct Hd as [->|[[Hne Hall]|(r & x & -> & Hx)]]; simpl.
  - split; [by apply dirname_absent|by apply basename_id].
  - destruct d as [|c d _] using rev_ind; [done|].
    apply Forall_app in Hall as [Hall Hc]. apply Forall_singleton in Hc as ->.
    replace (truthy (d ++ [sep])) with true by (by destruct d).
    assert (endswith (d ++ [sep]) [sep] = true) as ->.
    { apply bool_decide_eq_true. by exists d. }
    simpl. rewrite <- (assoc_L (++)). simpl. split.
    + rewrite dirname_split by done. by rewrite bool_decide_true.
    + by apply basename_app.
  - replace (truthy (r ++ [x])) with true by (by destruct r).
    assert (endswith (r ++ [x]) [sep] = false) as ->.
    { apply bool_decide_eq_false. intros [k Hk].
      apply app_inj_tail in Hk as [_ ?]. congruence. }
    simpl. split.
    + rewrite dirname_split by done. rewrite bool_decide_false.
      * by apply rstrip_char_id.
      * intros Hall. apply Forall_app in Hall as [_ Hc].
        inversion Hc as [|? ? Heq _]. by apply Hx.
    + by apply basename_app.
Qed.

Lemma splitext_stem_no_sep (b : str) : (sep ∉ b) → sep ∉ (splitext b).1.
Proof.
  intros Hb. destruct (splitext_cases b Hb) as [[Heq _]|(a & e & Hp & _ & _ & Heq)];
    rewrite Heq; simpl; [done|]. intros Ha. apply Hb. rewrite Hp. set_solver.
Qed.

(** X4. The output path is next to the input: its directory is the
    directory of the input path, and its base name is the base name of the
    input without its extension, followed by [.json]. *)
Theorem output_path_next_to_input (pdf_path : str) :
  dirname (output_path pdf_path) = dirname pdf_path
  ∧ basename (output_path pdf_path)
    = (splitext (basename pdf_path)).1 ++ lit ".json".
Proof.
  unfold output_path. apply join_split; [apply dirname_shape|].
  rewrite elem_of_app. intros [Hstem|Hjson].
  - by apply (splitext_stem_no_sep _ (basename_no_sep pdf_path)).
  - apply list_elem_of_In in Hjson. unfold lit in Hjson. simpl in Hjson.
    intuition discriminate.
Qed.

Lemma dirname_app_absent (s t : str) : (sep ∉ t) → dirname (s ++ t) = dirname s.
Proof.
  intros Ht. unfold dirname. rewrite rfind_app_absent by done.
  rewrite slice_to_app_le; [done|]. pose proof (rfind_bounds sep s). lia.
Qed.

Lemma basename_app_absent (s t : str) :
  (sep ∉ t) → basename (s ++ t) = basename s ++ t.
Proof.
  intros Ht. destruct (last_occurrence sep s) as [Hs|(a & b & -> & Hb)].
  - rewrite !basename_id; [done..|]. rewrite elem_of_app. tauto.
  - rewrite <- (assoc_L (++)), <- app_comm_cons, !basename_app; [done..|].
    rewrite elem_of_app. tauto.
Qed.

Lemma splitext_extension (s e : str) :
  (sep ∉ s) → (extsep ∉ e) → (sep ∉ e) → (∃ c, c ∈ s ∧ c ≠ extsep) →
  splitext (s ++ extsep :: e) = (s, extsep :: e).
Proof.
  intros Hs He Hse (c & Hc & Hne). unfold splitext.
  assert (sep ∉ s ++ extsep :: e) as Hsep.
  { rewrite elem_of_app, elem_of_cons. by intros [?|[?|?]]. }
  rewrite (rfind_absent sep) by done. rewrite rfind_last by done.
  replace (-1 <? Z.of_nat (length s)) with true by (symmetry; apply Z.ltb_lt; lia).
  change (-1 + 1) with 0. change (Z.of_nat (length s)) with (len s).
  rewrite slice_0_app, slice_to_app, slice_from_app.
  replace (existsb _ s) with true; [done|].
  symmetry. apply existsb_exists. exists c. split; [by apply list_elem_of_In|].
  apply negb_true_iff, Ascii.eqb_neq. done.
Qed.

(** X5. The output path forgets the extension of the input: two input
    paths that differ in their extension only (as [rome.pdf] and
    [rome.PDF]) have the same output path. *)
Theorem output_path_forgets_extension (stem e1 e2 : str) :
  (∃ c, c ∈ basename stem ∧ c ≠ extsep) →
  (extsep ∉ e1) → (sep ∉ e1) → (extsep ∉ e2) → (sep ∉ e2) →
  output_path (stem ++ [extsep] ++ e1) = output_path (stem ++ [extsep] ++ e2).
Proof.
  intros Hc.
  enough (∀ e, (extsep ∉ e) → (sep ∉ e) →
            output_path (stem ++ [extsep] ++ e)
            = join (dirname stem) (basename stem ++ lit ".json")) as Hout.
  { intros. by rewrite !Hout. }
  intros e He Hse. unfold output_path. simpl.
  assert (sep ∉ extsep :: e) as Hsep'.
  { apply not_elem_of_cons. by split. }
  rewrite dirname_app_absent, basename_app_absent by done.
  by rewrite splitext_extension by (done || apply basename_no_sep).
Qed.

End OutputPath.

Section CleanMore.

(** X14. [clean_word] leaves a text as it is exactly when all its
    characters are printable and it neither starts nor ends with white
    space. *)
Theorem clean_word_fixed_points (t : str) :
  clean_word t = t
  ↔ Forall (λ c, isprintable c = true) t
    ∧ (∀ c, head t = Some c → isspace c = false)
    ∧ (∀ c, last t = Some c → isspace c = false).
Proof.
  split.
  - intros Heq. split; [rewrite <- Heq; apply clean_word_printable|].
    unfold clean_word in Heq.
    destruct (strip_ends (List.filter isprintable t))
      as [Hs|[(c & Hs & Hc)|(c & m & d & Hs & Hc & Hd)]];
      rewrite Hs in Heq; subst t.
    + by split.
    + split; by intros ? [= <-].
    + split; [by intros ? [= <-]|].
      intros x. rewrite app_comm_cons, last_snoc. by intros [= <-].
  - intros (Hall & Hhead & Hlast). unfold clean_word.
    rewrite filter_all by done. unfold strip.
    destruct t as [|c t]; [done|].
    rewrite lstrip_with_id by (by apply Hhead).
    destruct t as [|d t _] using rev_ind.
    + apply (rstrip_with_id isspace []). by apply Hlast.
    + rewrite app_comm_cons. apply rstrip_with_id, Hlast.
      by rewrite app_comm_cons, last_snoc.
Qed.

End CleanMore.

Section RoutineMore.

Context {F : PyFloat}.

(** The [try] block on a document that opens, step by step. *)
Lemma extract_unfold (pdf_path out : str) (w : World) (pages : list PageSrc) :
  pages_of w pdf_path = Some pages →
  extract pdf_path out w
  = match for_each (seq 0 (length pages))
            (page_body {| doc_name := pdf_path; doc_pages := pages |}) ∅
            (set_live_docs (λ live, pdf_path :: live)
               (set_fitz_calls (λ calls, calls ++ [pdf_path])
                  (set_stdout (λ o, o ++ [processing_line pdf_path out]) w)))
    with
    | (Ret jd, w1) =>
        match dump_json out jd (set_live_docs (remove_first pdf_path) w1) with
        | (Ret _, w2) =>
            (Ret (Some out), set_stdout (λ o, o ++ [success_line out]) w2)
        | (Raise e, w2) => (Raise e, w2)
        end
    | (Raise e, w1) => (Raise e, w1)
    end.
Proof.
  intros Hfs. unfold extract. unfold bind at 1. cbn [print].
  unfold bind at 1.
  match goal with |- context [fitz_open pdf_path ?w0] =>
    pose proof (fitz_open_run pdf_path w0) as Hopen;
    change (pages_of w0 pdf_path) with (pages_of w pdf_path) in Hopen end.
  rewrite Hfs in Hopen. rewrite Hopen.
  unfold bind at 1. unfold doc_len. cbn [doc_pages].
  unfold processing_line.
  destruct (for_each _ _ _ _) as [[jd|e] w1]; [|done].
  unfold bind at 1. unfold doc_close at 1. cbn [doc_name].
  unfold bind at 1. destruct (dump_json _ _ _) as [[[]|e] w2]; [|done].
  reflexivity.
Qed.

Lemma dump_json_stdout (out : str) (jd : gmap str PageRec) (w : World) :
  stdout (dump_json out jd w).2 = stdout w
  ∧ live_docs (dump_json out jd w).2 = live_docs w.
Proof.
  unfold dump_json.
  destruct (fs w !! out) as [[?|?]|]; try done; by destruct (disk w out).
Qed.

Lemma dump_json_dir (out : str) (jd : gmap str PageRec) (w : World) (names : list str) :
  fs w !! out = Some (Dir names) →
  ∃ e, dump_json out jd w = (Raise e, w).
Proof. intros Hfs. unfold dump_json. rewrite Hfs. eauto. Qed.

(** The lines the loop over the pages prints. *)
Lemma pages_loop_stdout (doc : Doc) (n k : nat) (jd jd' : gmap str PageRec)
    (w w' : World) :
  for_each (seq k n) (page_body doc) jd w = (Ret jd', w') →
  ∃ lines,
    stdout w' = stdout w ++ lines
    ∧ length lines = n
    ∧ ∀ i h wd ws, doc_pages doc !! (k + i)%nat = Some (Page h wd ws) →
        (i < n)%nat →
        lines !! i = Some (page_line (k + i + 1) (length (words_loop h ws))).
Proof.
  revert k jd w. induction n as [|n IH]; intros k jd w; simpl.
  - intros [= <- <-]. exists []. rewrite (right_id_L [] (++)).
    split_and!; [done..|]. intros. lia.
  - unfold bind at 1. unfold page_body at 1, load_page, bind.
    destruct (doc_pages doc !! k) as [[h wd ws|err]|] eqn:Hk; simpl; [|done..].
    intros Hloop. apply IH in Hloop as (lines & Hout & Hlen & Hlines).
    simpl in Hout.
    exists (page_line (k + 1) (length (words_loop h ws)) :: lines).
    split_and!.
    + by rewrite Hout, <- (assoc_L (++)).
    + simpl. by rewrite Hlen.
    + intros [|i] h' wd' ws' Hp Hi.
      * rewrite Nat.add_0_r in *. rewrite Hk in Hp. by injection Hp as <- <- <-.
      * simpl. replace (k + S i + 1)%nat with (S k + i + 1)%nat by lia.
        apply (Hlines i h' wd' ws'); [|lia].
        by replace (S k + i)%nat with (k + S i)%nat by lia.
Qed.

(** X15. A successful run prints the [Processing] line, then one line per
    page in page order, giving the 1-based page number and the number of
    words kept on that page, then the [Successfully created JSON] line,
    and nothing else. *)
Theorem successful_run_prints (pdf_path out : str) (w w' : World)
    (pages : list PageSrc) :
  fs w !! pdf_path = Some (File (PdfDoc pages)) →
  pdf_to_word_json pdf_path w = (Ret (Some out), w') →
  ∃ lines,
    stdout w'
    = stdout w
      ++ [lit "Processing '" ++ pdf_path ++ lit "' -> '" ++ out ++ lit "'..."]
      ++ lines ++ [lit "Successfully created JSON: " ++ out]
    ∧ length lines = length pages
    ∧ ∀ i H W ws, pages !! i = Some (Page H W ws) →
        lines !! i
        = Some (lit "  - Page " ++ str_of_nat (i + 1) ++ lit ": Found "
                ++ str_of_nat (length (List.filter kept ws)) ++ lit " words.").
Proof.
  intros Hpdf Hrun.
  destruct (pdf_to_word_json_returns _ _ _ _ Hrun) as (-> & _).
  destruct (pdf_to_word_json_cases pdf_path w) as [(w1 & Hex & Hrun')|(e & w1 & _ & Hrun')];
    rewrite Hrun in Hrun'; [|done]. injection Hrun' as <-.
  rewrite (extract_unfold _ _ _ _ (pages_of_pdf _ _ _ Hpdf)) in Hex.
  destruct (for_each _ _ _ _) as [[jd|e] w1] eqn:Hloop; [|done].
  pose proof (dump_json_stdout (output_path pdf_path) jd
                (set_live_docs (remove_first pdf_path) w1)) as [Hdump _].
  destruct (dump_json _ _ _) as [[[]|e] w2]; [|done].
  injection Hex as <-. simpl in Hdump.
  apply pages_loop_stdout in Hloop as (lines & Hout & Hlen & Hlines).
  simpl in Hout. exists lines. split_and!.
  - simpl. rewrite Hdump, Hout. by rewrite <- !(assoc_L (++)).
  - done.
  - intros i H W ws Hp. rewrite (Hlines i H W ws); simpl; [|done|].
    + unfold page_line. by rewrite words_loop_filter, length_map.
    + by eapply lookup_lt_Some.
Qed.

(** X13. After a successful run, the record written for page [i] (from 0)
    has [page = i + 1], and as [width] and [height] the width and height
    of the page rounded to two decimals. *)
Theorem written_page_dimensions (pdf_path out : str) (w w' : World)
    (pages : list PageSrc) (i : nat) (H W : float) (ws : list RawWord) :
  fs w !! pdf_path = Some (File (PdfDoc pages)) →
  pdf_to_word_json pdf_path w = (Ret (Some out), w') →
  pages !! i = Some (Page H W ws) →
  ∃ jd rec,
    fs w' !! out = Some (File (JsonDoc jd))
    ∧ jd !! str_of_nat (i + 1) = Some rec
    ∧ page rec = (i + 1)%nat
    ∧ width rec = round2 W
    ∧ height rec = round2 H.
Proof.
  intros Hpdf Hrun Hpage.
  destruct (pdf_to_word_json_page _ _ _ _ _ _ _ _ _ Hpdf Hrun Hpage) as (jd & Hfs & Hjd).
  by exists jd, (page_record i H W ws).
Qed.

Lemma json_of_unique (pages : list PageSrc) (jd1 jd2 : gmap str PageRec) :
  forallb is_page pages = true →
  json_of pages jd1 → json_of pages jd2 → jd1 = jd2.
Proof.
  intros Hall [Hin1 Hout1] [Hin2 Hout2]. rewrite forallb_is_page in Hall.
  apply map_eq. intros key.
  destruct (decide (key ∈ str_of_nat <$> seq 1 (length pages))) as [Hk|Hk].
  - apply list_elem_of_fmap in Hk as (k & -> & Hk). apply elem_of_seq in Hk.
    destruct (Hall (k - 1)%nat) as (h & wd & ws & Hp); [lia|].
    pose proof (Hin1 _ _ _ _ Hp) as H1. pose proof (Hin2 _ _ _ _ Hp) as H2.
    replace (k - 1 + 1)%nat with k in * by lia. by rewrite H1, H2.
  - rewrite Hout1, Hout2; [done|..]; intros i Hi ->; apply Hk, list_elem_of_fmap;
      exists (i + 1)%nat; (split; [done|]); apply elem_of_seq; lia.
Qed.

Lemma writable_no_fault (w : World) (path : str) :
  writable w path = true
  ↔ (∀ names, fs w !! path ≠ Some (Dir names)) ∧ disk w path = NoFault.
Proof.
  unfold writable.
  destruct (fs w !! path) as [[c|names]|]; destruct (disk w path);
    split; try done; try (by intros [_ ?]); try (by intros [? _]).
  all: try (intros [Hd _]; by destruct (Hd names)).
Qed.

(** X6. Extraction is idempotent on the file system: after a successful
    run on an input that is not its own output path, a second run succeeds
    too and leaves the file system as the first one left it. *)
Theorem extraction_is_idempotent (pdf_path out : str) (w w1 : World) :
  pdf_to_word_json pdf_path w = (Ret (Some out), w1) →
  out ≠ pdf_path →
  ∃ w2, pdf_to_word_json pdf_path w1 = (Ret (Some out), w2)
        ∧ fs w2 = fs w1.
Proof.
  intros Hrun Hne.
  destruct (pdf_to_word_json_returns _ _ _ _ Hrun)
    as (-> & pages & jd & Hpdf & Hall & Hwr & Hjd & Hfs & _).
  destruct (pdf_to_word_json_spec pdf_path w) as (r & w1' & Hrun1 & Hdisk & _).
  rewrite Hrun in Hrun1. injection Hrun1 as <- <-.
  destruct (pdf_to_word_json_spec pdf_path w1)
    as (r & w2 & Hrun2 & _ & _ & _ & _ & _ & Hcase).
  assert (pages_of w1 pdf_path = Some pages) as Hpdf1.
  { unfold pages_of in *. by rewrite Hfs, lookup_insert_ne. }
  rewrite Hpdf1, Hall in Hcase.
  assert (writable w1 (output_path pdf_path) = true) as Hwr1.
  { apply writable_no_fault in Hwr as [_ Hd]. apply writable_no_fault.
    rewrite Hfs, lookup_insert_eq, Hdisk. by split. }
  rewrite Hwr1 in Hcase. destruct Hcase as (_ & -> & jd2 & Hjd2 & Hfs2).
  exists w2. split; [done|].
  rewrite Hfs2, Hfs, (json_of_unique pages jd2 jd) by done.
  apply insert_insert_eq.
Qed.

(** X7. A call changes the file system at its output path only, whatever
    its outcome: every other path holds what it held before. *)
Theorem call_changes_only_output_path (pdf_path q : str) (w : World) :
  q ≠ output_path pdf_path →
  fs (pdf_to_word_json pdf_path w).2 !! q = fs w !! q.
Proof. apply pdf_to_word_json_frame. Qed.

(** X16. When the input path is its own output path (a PDF document named
    [*.json]), a successful run replaces the input by the mapping, and a
    second run on it fails and tries to remove it: the file is gone when
    the system does not refuse the removal, and stays as the first run
    left it when it does. *)
Theorem input_named_as_output_is_replaced (pdf_path out : str) (w w1 : World) :
  output_path pdf_path = pdf_path →
  pdf_to_word_json pdf_path w = (Ret (Some out), w1) →
  (∃ jd, fs w1 !! pdf_path = Some (File (JsonDoc jd)))
  ∧ ∃ w2, pdf_to_word_json pdf_path w1 = (Ret None, w2)
          ∧ (refusal w pdf_path = None → fs w2 !! pdf_path = None)
          ∧ (∀ err, refusal w pdf_path = Some err → fs w2 = fs w1).
Proof.
  intros Hself Hrun.
  destruct (pdf_to_word_json_returns _ _ _ _ Hrun)
    as (-> & pages & jd & Hpdf & Hall & Hwr & Hjd & Hfs & _).
  rewrite Hself in Hfs.
  assert (fs w1 !! pdf_path = Some (File (JsonDoc jd))) as Hin
    by (by rewrite Hfs, lookup_insert_eq).
  split; [eauto|].
  destruct (pdf_to_word_json_spec pdf_path w) as (r & w1' & Hrun1 & _ & Href & _).
  rewrite Hrun in Hrun1. injection Hrun1 as <- <-.
  destruct (pdf_to_word_json_spec pdf_path w1)
    as (r & w2 & Hrun2 & _ & _ & _ & _ & _ & Hcase).
  unfold pages_of in Hcase. rewrite Hin, Hself, Href in Hcase.
  destruct Hcase as (-> & Hfs2 & _). exists w2. split_and!; [done| |].
  - intros Hok. rewrite Hfs2, Hok, remove_file_lookup. by rewrite Hin.
  - intros err Hno. by rewrite Hfs2, Hno, remove_file_refused.
Qed.

(** X8. When a directory is in the place of the output file, the call
    returns [None] without raising and the file system is as it was: the
    [OSError] of the removal is swallowed. *)
Theorem directory_at_output_path_is_kept (pdf_path : str) (w : World)
    (names : list str) :
  fs w !! output_path pdf_path = Some (Dir names) →
  ∃ w', pdf_to_word_json pdf_path w = (Ret None, w') ∧ fs w' = fs w.
Proof.
  intros Hdir. set (out := output_path pdf_path) in *.
  assert (remove_file (refusal w out) out (fs w) = fs w) as Hrm.
  { unfold remove_file. by rewrite Hdir. }
  assert (∃ e w1, extract pdf_path out w = (Raise e, w1) ∧ fs w1 = fs w)
    as (e & w1 & Hex & Hfs1).
  { destruct (pages_of w pdf_path) as [pages|] eqn:Hpdf.
    2: { destruct (extract_cases pdf_path out w)
           as (r & w1 & Hex & _ & _ & _ & _ & Hcase).
         rewrite Hpdf in Hcase.
         destruct Hcase as ([e ->] & ? & _). by exists e, w1. }
    rewrite (extract_unfold _ _ _ _ Hpdf).
    match goal with |- context [for_each ?xs ?b ?s ?w0] =>
      pose proof (pages_loop_cases {| doc_name := pdf_path; doc_pages := pages |}
                    (length pages) 0 ∅ w0) as [(Hfs0 & _) _];
      change (for_each (seq 0 (length pages))
                (page_body {| doc_name := pdf_path; doc_pages := pages |}) ∅ w0)
        with (for_each xs b s w0) in Hfs0;
      destruct (for_each xs b s w0) as [[jd|e] w1] end; simpl in Hfs0.
    - destruct (dump_json_dir out jd (set_live_docs (remove_first pdf_path) w1) names)
        as [e ->]; [by rewrite <- Hdir, <- Hfs0|].
      by exists e, (set_live_docs (remove_first pdf_path) w1).
    - by exists e, w1. }
  destruct (pdf_to_word_json_cases pdf_path w) as [(w' & Hex' & _)|(e' & w1' & Hex' & Hrun)];
    fold out in Hex'; rewrite Hex in Hex'; [done|]. injection Hex' as <- <-.
  eexists. split; [exact Hrun|]. simpl. by rewrite Hfs1.
Qed.

(** X12. Whenever the document does not open or all its pages load, the
    call leaves open exactly the documents that were open before it,
    whether the dump goes through or not. *)
Theorem document_closed_when_pages_load (pdf_path : str) (w : World) :
  (∀ pages, fs w !! pdf_path = Some (File (PdfDoc pages)) →
            forallb is_page pages = true) →
  live_docs (pdf_to_word_json pdf_path w).2 = live_docs w.
Proof.
  intros Hload. rewrite pdf_to_word_json_live_docs. unfold pages_of.
  destruct (fs w !! pdf_path) as [[[pages| | |]|]|]; try done.
  - by rewrite (Hload pages eq_refl).
  - by destruct pdf_path.
Qed.

End RoutineMore.

Section DriverMore.

Context {F : PyFloat}.

Lemma default_dir_join :
  posixpath.join (lit "chapters") (lit "ancient-history") = default_dir.
Proof. reflexivity. Qed.

Lemma no_arguments_unfold (w : World) :
  no_arguments w
  = match fs w !! default_dir with
    | Some (Dir names) =>
        match found_in names with
        | [] =>
            (Ret 1, set_stdout (λ o, o ++ [lit "No PDF files found in '"
                                           ++ default_dir ++ lit "'."])
                      (announced w))
        | _ :: _ =>
            (extract_all (found_in names) >> ret 1)
              (set_stdout (λ o, o ++ [lit "Found PDF files: "
                    ++ Py.join (lit ", ") (map posixpath.basename (found_in names))])
                 (announced w))
        end
    | _ =>
        (Ret 1, set_stdout (λ o, o ++ [lit "Default directory '"
                                       ++ default_dir ++ lit "' not found."])
                  (announced w))
    end.
Proof.
  unfold no_arguments. rewrite default_dir_join.
  unfold bind at 1 2 3. unfold print at 1 2, isdir at 1.
  change (fs (set_stdout _ (set_stdout _ w))) with (fs w).
  destruct (fs w !! default_dir) as [[c|names]|] eqn:Hdir; [reflexivity| |reflexivity].
  cbv beta iota. unfold bind at 1 2. unfold listdir at 1.
  change (fs (set_stdout _ (set_stdout _ w))) with (fs w). rewrite Hdir.
  unfold found_in. destruct (map _ (List.filter is_pdf_name names)); reflexivity.
Qed.

Lemma extract_all_run (files : list str) (w : World) :
  ∃ w', extract_all files w = (Ret (), w')
    ∧ fitz_calls w' = fitz_calls w ++ files
    ∧ ∀ q, (∀ f, f ∈ files → q ≠ output_path f) → fs w' !! q = fs w !! q.
Proof.
  unfold extract_all. revert w. induction files as [|f files IH]; intros w; simpl.
  - exists w. by rewrite (right_id_L [] (++)).
  - unfold bind at 1 2.
    destruct (pdf_to_word_json_spec f w) as (r & w1 & Hrun & _ & _ & Hcalls & _).
    pose proof (λ q, pdf_to_word_json_frame f q w) as Hframe.
    rewrite Hrun in *. simpl in *.
    destruct (IH w1) as (w' & Hloop & Hcalls' & Hframe').
    exists w'. split_and!; [done| |].
    + by rewrite Hcalls', Hcalls, <- (assoc_L (++)).
    + intros q Hq. rewrite Hframe', Hframe; [done|..].
      * apply Hq. by left.
      * intros g Hg. apply Hq. by right.
Qed.

(** X10. Without arguments and without the default directory (absent, or
    a file), the script opens nothing, changes no file, prints its usage,
    the directory searched and that it was not found, and exits with
    status 1. *)
Theorem no_arguments_without_default_directory (argv : list str) (w : World) :
  (length argv < 2)%nat →
  (∀ names, fs w !! lit "chapters/ancient-history" ≠ Some (Dir names)) →
  (run argv w).1 = 1
  ∧ fs (run argv w).2 = fs w
  ∧ fitz_calls (run argv w).2 = fitz_calls w
  ∧ live_docs (run argv w).2 = live_docs w
  ∧ stdout (run argv w).2
    = stdout w
      ++ [lit "Usage: python process_pdf.py <path_to_pdf_file1> [path_to_pdf_file2] ...";
          [newline] ++ lit "No PDF path provided. Searching in default directory: 'chapters/ancient-history'";
          lit "Default directory 'chapters/ancient-history' not found."].
Proof.
  intros Hlen Hdir. unfold run, main.
  replace (length argv <? 2)%nat with true by (symmetry; apply Nat.ltb_lt; lia).
  rewrite no_arguments_unfold. fold default_dir in Hdir.
  destruct (fs w !! default_dir) as [[c|names]|] eqn:Hfs;
    [|by destruct (Hdir names)|]; simpl; by rewrite <- !(assoc_L (++)).
Qed.

(** X11. Without arguments and with the default directory, the script
    calls [fitz.open] on exactly the entries of the directory whose name
    ends with [.pdf] in any letter case, joined to the directory, in the
    order of the listing (with no test that they are files), and changes
    no path other than the output paths of entries of the directory. *)
Theorem no_arguments_opens_pdf_names (argv : list str) (w : World)
    (names : list str) :
  (length argv < 2)%nat →
  fs w !! lit "chapters/ancient-history" = Some (Dir names) →
  (run argv w).1 = 1
  ∧ fitz_calls (run argv w).2
    = fitz_calls w
      ++ map (posixpath.join (lit "chapters/ancient-history"))
           (List.filter (λ f, endswith (lower f) (lit ".pdf")) names)
  ∧ ∀ q, (∀ f, f ∈ names → q ≠ output_path
                  (posixpath.join (lit "chapters/ancient-history") f)) →
         fs (run argv w).2 !! q = fs w !! q.
Proof.
  intros Hlen Hdir. unfold run, main.
  replace (length argv <? 2)%nat with true by (symmetry; apply Nat.ltb_lt; lia).
  rewrite no_arguments_unfold. fold default_dir in Hdir |- *. rewrite Hdir.
  fold is_pdf_name. fold (found_in names).
  assert (∀ f, f ∈ found_in names → ∃ g, g ∈ names ∧ f = posixpath.join default_dir g)
    as Hfound.
  { intros f Hf. apply list_elem_of_fmap in Hf as (g & -> & Hg).
    apply list_elem_of_In, filter_In in Hg as [Hg _]. exists g.
    split; [by apply list_elem_of_In|done]. }
  destruct (found_in names) as [|f files] eqn:Hfiles.
  - simpl. by rewrite (right_id_L [] (++)).
  - match goal with |- context [bind _ _ ?w0] =>
      destruct (extract_all_run (f :: files) w0) as (w' & Hrun & Hcalls & Hframe) end.
    unfold bind. rewrite Hrun. simpl in *. split_and!; [done..|].
    intros q Hq. rewrite Hframe; [done|].
    intros g Hg ->. destruct (Hfound g Hg) as (g' & Hg' & ->). by eapply Hq.
Qed.

Lemma arguments_frame (args : list str) (w : World) (q : str) :
  (∀ a, a ∈ args → q ≠ output_path a) →
  fs (for_each args (λ a _, argument_body a) () w).2 !! q = fs w !! q.
Proof.
  revert w. induction args as [|a args IH]; intros w Hq; simpl; [done|].
  unfold bind at 1. rewrite argument_body_run.
  destruct (valid_arg w a); rewrite IH by (intros b Hb; apply Hq; by right).
  - apply pdf_to_word_json_frame, Hq. by left.
  - done.
Qed.

Lemma main_arguments_world (argv : list str) (w : World) :
  (2 ≤ length argv)%nat →
  (run argv w).2 = (for_each (drop 1 argv) (λ a _, argument_body a) () w).2.
Proof.
  intros Hlen. unfold run, main.
  replace (length argv <? 2)%nat with false by (symmetry; apply Nat.ltb_ge; lia).
  unfold bind. by destruct (for_each _ _ _ _) as [[[]|e] w'].
Qed.

(** X17. With arguments, the script changes no path of the file system
    other than the output paths of its arguments. *)
Theorem arguments_change_only_their_outputs (argv : list str) (w : World)
    (q : str) :
  (2 ≤ length argv)%nat →
  (∀ a, a ∈ drop 1 argv → q ≠ output_path a) →
  fs (run argv w).2 !! q = fs w !! q.
Proof.
  intros Hlen Hq. rewrite main_arguments_world by done. by apply arguments_frame.
Qed.

(** X9. The script never changes what a path named [*.pdf] (in any letter
    case) holds, with or without arguments: it does not write to, replace
    or remove any such file. *)
Theorem script_never_touches_pdf_names (argv : list str) (w : World) (q : str) :
  is_pdf_name q = true →
  fs (run argv w).2 !! q = fs w !! q.
Proof.
  intros Hq.
  assert (∀ f, q ≠ output_path f) as Hne.
  { intros f ->. by rewrite is_pdf_name_output in Hq. }
  destruct (decide (2 ≤ length argv)%nat) as [Hlen|Hlen].
  - rewrite main_arguments_world by done. by apply arguments_frame.
  - unfold run, main.
    replace (length argv <? 2)%nat with true by (symmetry; apply Nat.ltb_lt; lia).
    rewrite no_arguments_unfold.
    destruct (fs w !! default_dir) as [[c|names]|]; [done| |done].
    destruct (found_in names) as [|f files]; [done|].
    match goal with |- context [bind _ _ ?w0] =>
      destruct (extract_all_run (f :: files) w0) as (w' & Hrun & _ & Hframe) end.
    unfold bind. rewrite Hrun. simpl. by rewrite Hframe.
Qed.

End DriverMore.

Section CleanVisible.

Lemma filter_none {A} (f : A → bool) (l : list A) :
  Forall (λ x, f x = false) l → List.filter f l = [].
Proof. induction 1 as [|x l Hx _ IH]; simpl; [done|]. by rewrite Hx. Qed.

Lemma strip_visible (s : str) :
  List.filter (λ c, negb (isspace c)) (strip s)
  = List.filter (λ c, negb (isspace c)) s.
Proof.
  destruct (lstrip_with_split isspace s) as (a & Ha & Hall).
  destruct (rstrip_with_split isspace (lstrip_with isspace s)) as (b & Hb & Hbll).
  fold (strip s) in Hb. rewrite Ha at 2. rewrite Hb.
  rewrite !List.filter_app.
  rewrite (filter_none _ a), (filter_none _ b).
  - by rewrite (right_id_L [] (++)).
  - eapply Forall_impl; [exact Hbll|]. by intros c ->.
  - eapply Forall_impl; [exact Hall|]. by intros c ->.
Qed.

(** X19. Cleaning loses no visible character: the characters of the
    cleaned text that are not white space are the printable characters of
    the raw text that are not white space, in the same order. *)
Theorem clean_word_keeps_visible_characters (t : str) :
  List.filter (λ c, negb (isspace c)) (clean_word t)
  = List.filter (λ c, isprintable c && negb (isspace c)) t.
Proof.
  unfold clean_word. rewrite strip_visible.
  induction t as [|c t IH]; simpl; [done|].
  destruct (isprintable c); simpl; [|done].
  destruct (isspace c); simpl; by rewrite IH.
Qed.

(** X18. The output path always ends with [.json]: it is never empty and
    never a name the script takes for a PDF document. *)
Theorem output_path_is_a_json_name (pdf_path : str) :
  lit ".json" `suffix_of` output_path pdf_path
  ∧ output_path pdf_path ≠ []
  ∧ is_pdf_name (output_path pdf_path) = false.
Proof.
  split_and!.
  - apply output_path_json.
  - apply output_path_nonempty.
  - apply is_pdf_name_output.
Qed.

End CleanVisible.

(* ===================================================================== *)
(** ** The sample worlds again                                            *)
(* ===================================================================== *)

Section MoreSamples.

Import Sample.

#[local] Existing Instance Q_float.

Example sanitize_filename_edges :
  sanitize_filename [] = []
  ∧ sanitize_filename (lit "chapters/") = []
  ∧ sanitize_filename (lit "...") = lit "___"
  ∧ sanitize_filename (lit "a b/c d.e f") = lit "c_d".
Proof. split_and!; reflexivity. Qed.

Example output_path_examples :
  output_path (lit "a/b.pdf") = lit "a/b.json"
  ∧ output_path (lit "b.PDF") = lit "b.json"
  ∧ output_path (lit "/b.tar.pdf") = lit "/b.tar.json"
  ∧ output_path (lit "a//b") = lit "a/b.json"
  ∧ output_path (lit "a/.pdf") = lit "a/.pdf.json".
Proof. split_and!; reflexivity. Qed.

Lemma sanitize_filename_ignores_directory_witness :
  sanitize_filename (lit "chapters/ancient history" ++ [posixpath.sep]
                     ++ lit "My File.pdf")
  = sanitize_filename (lit "My File.pdf").
Proof.
  apply (sanitize_filename_ignores_directory (lit "chapters/ancient history")
           (lit "My File.pdf")).
  compute_done.
Defined.

Lemma output_path_forgets_extension_witness :
  output_path (lit "a/rome" ++ [posixpath.extsep] ++ lit "pdf")
  = output_path (lit "a/rome" ++ [posixpath.extsep] ++ lit "PDF").
Proof.
  apply (output_path_forgets_extension (lit "a/rome") (lit "pdf") (lit "PDF")).
  - exists "r"%char. split; compute_done.
  - compute_done.
  - compute_done.
  - compute_done.
  - compute_done.
Defined.

Lemma extraction_is_idempotent_witness :
  ∃ w2, pdf_to_word_json good_pdf w_good = (Ret (Some good_json), w2)
        ∧ fs w2 = fs w_good.
Proof.
  apply (extraction_is_idempotent good_pdf good_json w0 w_good).
  - unfold w_good. apply run_returns. reflexivity.
  - compute_done.
Defined.

Lemma call_changes_only_output_path_witness :
  fs (pdf_to_word_json good_pdf w0).2 !! bad_pdf = fs w0 !! bad_pdf.
Proof.
  apply (call_changes_only_output_path good_pdf bad_pdf w0). compute_done.
Defined.

Lemma input_named_as_output_is_replaced_witness :
  (∃ jd, fs (pdf_to_word_json scan_json w_scan).2 !! scan_json
         = Some (File (JsonDoc jd)))
  ∧ ∃ w2, pdf_to_word_json scan_json (pdf_to_word_json scan_json w_scan).2
          = (Ret None, w2)
          ∧ (refusal w_scan scan_json = None → fs w2 !! scan_json = None)
          ∧ (∀ err, refusal w_scan scan_json = Some err →
                    fs w2 = fs (pdf_to_word_json scan_json w_scan).2).
Proof.
  apply (input_named_as_output_is_replaced scan_json scan_json w_scan).
  - reflexivity.
  - apply run_returns. reflexivity.
Defined.

Lemma directory_at_output_path_is_kept_witness :
  ∃ w', pdf_to_word_json good_pdf w_dir = (Ret None, w') ∧ fs w' = fs w_dir.
Proof.
  apply (directory_at_output_path_is_kept good_pdf w_dir []). reflexivity.
Defined.

Lemma document_closed_when_pages_load_witness :
  live_docs (pdf_to_word_json good_pdf w0).2 = live_docs w0.
Proof.
  apply (document_closed_when_pages_load good_pdf w0).
  intros pages Hpages.
  assert (fs w0 !! good_pdf = Some (File (PdfDoc good_pages))) as Hgood
    by reflexivity.
  rewrite Hgood in Hpages. injection Hpages as <-. reflexivity.
Defined.

Lemma written_page_dimensions_witness :
  ∃ jd rec,
    fs w_good !! good_json = Some (File (JsonDoc jd))
    ∧ jd !! str_of_nat (0 + 1) = Some rec
    ∧ page rec = (0 + 1)%nat
    ∧ width rec = round2 612%Q
    ∧ height rec = round2 792%Q.
Proof.
  apply (written_page_dimensions good_pdf good_json w0 w_good good_pages 0
           792%Q 612%Q [hello; blanks; world]).
  - reflexivity.
  - unfold w_good. apply run_returns. reflexivity.
  - reflexivity.
Defined.

Lemma successful_run_prints_witness :
  ∃ lines,
    stdout w_good
    = stdout w0
      ++ [lit "Processing '" ++ good_pdf ++ lit "' -> '" ++ good_json ++ lit "'..."]
      ++ lines ++ [lit "Successfully created JSON: " ++ good_json]
    ∧ length lines = length good_pages
    ∧ ∀ i H W ws, good_pages !! i = Some (Page H W ws) →
        lines !! i
        = Some (lit "  - Page " ++ str_of_nat (i + 1) ++ lit ": Found "
                ++ str_of_nat (length (List.filter kept ws)) ++ lit " words.").
Proof.
  apply (successful_run_prints good_pdf good_json w0 w_good good_pages).
  - reflexivity.
  - unfold w_good. apply run_returns. reflexivity.
Defined.

Lemma no_arguments_without_default_directory_witness :
  (run [lit "process_pdf.py"] empty_world).1 = 1
  ∧ fs (run [lit "process_pdf.py"] empty_world).2 = fs empty_world
  ∧ fitz_calls (run [lit "process_pdf.py"] empty_world).2 = fitz_calls empty_world
  ∧ live_docs (run [lit "process_pdf.py"] empty_world).2 = live_docs empty_world
  ∧ stdout (run [lit "process_pdf.py"] empty_world).2
    = stdout empty_world
      ++ [lit "Usage: python process_pdf.py <path_to_pdf_file1> [path_to_pdf_file2] ...";
          [newline] ++ lit "No PDF path provided. Searching in default directory: 'chapters/ancient-history'";
          lit "Default directory 'chapters/ancient-history' not found."].
Proof.
  apply (no_arguments_without_default_directory [lit "process_pdf.py"] empty_world).
  - simpl. lia.
  - intros names Hnames.
    assert (fs empty_world !! lit "chapters/ancient-history" = None) as Hnone
      by reflexivity.
    rewrite Hnone in Hnames. discriminate.
Defined.

Lemma no_arguments_opens_pdf_names_witness :
  (run [lit "process_pdf.py"] w0).1 = 1
  ∧ fitz_calls (run [lit "process_pdf.py"] w0).2
    = fitz_calls w0
      ++ map (posixpath.join (lit "chapters/ancient-history"))
           (List.filter (λ f, endswith (lower f) (lit ".pdf"))
              [lit "rome.PDF"; lit "notes.txt"])
  ∧ ∀ q, (∀ f, f ∈ [lit "rome.PDF"; lit "notes.txt"] →
               q ≠ output_path
                     (posixpath.join (lit "chapters/ancient-history") f)) →
         fs (run [lit "process_pdf.py"] w0).2 !! q = fs w0 !! q.
Proof.
  apply (no_arguments_opens_pdf_names [lit "process_pdf.py"] w0
           [lit "rome.PDF"; lit "notes.txt"]).
  - simpl. lia.
  - reflexivity.
Defined.

Lemma arguments_change_only_their_outputs_witness :
  fs (run argv w0).2 !! good_pdf = fs w0 !! good_pdf.
Proof.
  apply (arguments_change_only_their_outputs argv w0 good_pdf).
  - unfold argv. simpl. lia.
  - apply Forall_forall. unfold argv. simpl. repeat constructor; compute_done.
Defined.

Lemma script_never_touches_pdf_names_witness :
  fs (run argv w0).2 !! bad_pdf = fs w0 !! bad_pdf.
Proof.
  apply (script_never_touches_pdf_names argv w0 bad_pdf). reflexivity.
Defined.

End MoreSamples.
